(** * Resource aggregation core of the dashboard backend

    A shallow embedding of the Go code of the dashboard backend that
    fetches resource lists through channels, classifies pods, converts
    resources to data cells, builds list views and correlates cron jobs
    with their jobs.

    Conventions.
    - Go strings are [string]; Go enums backed by strings ([PodPhase],
      [PodConditionType], [ConditionStatus]) are strings too, with the
      constants of the client library defined below.
    - An [int32] is a [Z] kept in range by [int32_wrap] after every
      arithmetic operation, as Go does.
    - A Go slice whose nil-ness matters is an [option (list A)]: [None] is
      the nil slice, [Some l] a non-nil slice with elements [l].
    - A Go [map[string]string] is a [gmap string string]. *)

From Stdlib Require Import ZArith Lia Ascii.
From stdpp Require Import base list gmap strings.

Open Scope Z_scope.

(** ** Machine integers *)

Definition int32_wrap (z : Z) : Z := (z + 2 ^ 31) mod 2 ^ 32 - 2 ^ 31.

Definition int32_add (a b : Z) : Z := int32_wrap (a + b).

(** ** Data model (client library types used by the code) *)

(** [api.PodPhase] constants. *)
Definition PodPending : string := "Pending".
Definition PodRunning : string := "Running".
Definition PodSucceeded : string := "Succeeded".
Definition PodFailed : string := "Failed".

(** [api.PodConditionType] and [api.ConditionStatus] constants. *)
Definition PodReady : string := "Ready".
Definition PodInitialized : string := "Initialized".
Definition ConditionTrue : string := "True".

Record PodCondition := mkPodCondition {
  CondType : string;
  CondStatus : string
}.

Record ObjectMeta := mkObjectMeta {
  Name : string;
  Namespace : string;
  CreationTimestamp : Z;
  Annotations : gmap string string
}.

Record PodStatus := mkPodStatus {
  Phase : string;
  Conditions : list PodCondition
}.

Record Pod := mkPod {
  PodObjectMeta : ObjectMeta;
  Status : PodStatus
}.

(** [common.Event]: only its presence is inspected by the code below. *)
Record Event := mkEvent {
  EventReason : string;
  EventMessage : string
}.

(** ** Pod classification ([common/podinfo.go], [pod/common.go]) *)

(** One iteration of the loop over [pod.Status.Conditions] computing
    [(ready, initialized)]. *)
Definition readyInitializedStep (acc : bool * bool) (c : PodCondition)
    : bool * bool :=
  let '(ready, initialized) := acc in
  let ready := if String.eqb (CondType c) PodReady
               then String.eqb (CondStatus c) ConditionTrue else ready in
  let initialized := if String.eqb (CondType c) PodInitialized
                     then String.eqb (CondStatus c) ConditionTrue
                     else initialized in
  (ready, initialized).

Definition readyInitialized (conds : list PodCondition) : bool * bool :=
  fold_left readyInitializedStep conds (false, false).

(** The part of [readyInitializedStep] that tracks one condition type. *)
Definition condStep (t : string) (r : bool) (c : PodCondition) : bool :=
  if String.eqb (CondType c) t then String.eqb (CondStatus c) ConditionTrue
  else r.

(** [common.getPodPhaseStatus]. *)
Definition getPodPhaseStatus (pod : Pod) (warnings : list Event) : string :=
  if String.eqb (Phase (Status pod)) PodFailed then PodFailed
  else if String.eqb (Phase (Status pod)) PodSucceeded then PodSucceeded
  else
    let '(ready, initialized) := readyInitialized (Conditions (Status pod)) in
    if initialized && ready then PodRunning
    else if bool_decide (0 < length warnings)%nat then PodFailed
    else PodPending.

(** [pod.getPodStatusStatus]. *)
Definition getPodStatusStatus (pod : Pod) (warnings : list Event) : string :=
  if String.eqb (Phase (Status pod)) PodFailed then "failed"
  else if String.eqb (Phase (Status pod)) PodSucceeded then "success"
  else
    let '(ready, initialized) := readyInitialized (Conditions (Status pod)) in
    if initialized && ready then "success"
    else if bool_decide (0 < length warnings)%nat then "failed"
    else "pending".

(** ** Pod aggregation ([common.GetPodEventInfo]) *)

Record PodInfo := mkPodInfo {
  Current : Z;
  Desired : Z;
  Running : Z;
  Pending : Z;
  Failed : Z;
  Succeeded : Z;
  Warnings : option (list Event)
}.

(** The [switch] on the computed phase: one counter is incremented, as an
    [int32] ([result.Running++] and so on); other phases count nowhere. *)
Definition countPhase (r : PodInfo) (phase : string) : PodInfo :=
  if String.eqb phase PodRunning then
    mkPodInfo (Current r) (Desired r) (int32_add (Running r) 1) (Pending r)
      (Failed r) (Succeeded r) (Warnings r)
  else if String.eqb phase PodPending then
    mkPodInfo (Current r) (Desired r) (Running r) (int32_add (Pending r) 1)
      (Failed r) (Succeeded r) (Warnings r)
  else if String.eqb phase PodFailed then
    mkPodInfo (Current r) (Desired r) (Running r) (Pending r)
      (int32_add (Failed r) 1) (Succeeded r) (Warnings r)
  else if String.eqb phase PodSucceeded then
    mkPodInfo (Current r) (Desired r) (Running r) (Pending r) (Failed r)
      (int32_add (Succeeded r) 1) (Warnings r)
  else r.

(** [common.GetPodEventInfo]; [eve] is the (possibly nil) warning slice. *)
Definition GetPodEventInfo (current desired : Z) (pods : list Pod)
    (eve : option (list Event)) : PodInfo :=
  let result := mkPodInfo current desired 0 0 0 0 (Some []) in
  let result := fold_left
      (fun r pod => countPhase r (getPodPhaseStatus pod (default [] eve)))
      pods result in
  mkPodInfo (Current result) (Desired result) (Running result)
    (Pending result) (Failed result) (Succeeded result) eve.

(** ** Errors and slices *)

(** A Go [error] as the code inspects it: a [k8serrors.StatusError] pointer with
    its [ErrStatus.Reason], or any other error. *)
Inductive GoError :=
| StatusError (Reason : string)
| OtherError (msg : string).

(** The type assertion to [k8serrors.StatusError] succeeded and [Reason == "NotFound"]. *)
Definition isNotFound (e : GoError) : bool :=
  match e with
  | StatusError r => String.eqb r "NotFound"
  | OtherError _ => false
  end.

(** Go's [append(s, xs...)] on a possibly nil slice: appending nothing to a
    nil slice gives the nil slice. *)
Definition goAppend {A} (s : option (list A)) (xs : list A) : option (list A) :=
  match s, xs with
  | None, [] => None
  | _, _ => Some (default [] s ++ xs)
  end.

(** ** Resources and data cells *)

Record StatefulSet := mkStatefulSet {
  SSObjectMeta : ObjectMeta;
  SSReplicas : Z;
  SSStatusReplicas : Z
}.

Record BatchJob := mkBatchJob {
  BJObjectMeta : ObjectMeta;
  BJActive : Z;
  BJCompletions : option Z
}.

Record DaemonSet := mkDaemonSet {
  DSObjectMeta : ObjectMeta;
  DSCurrentNumberScheduled : Z;
  DSDesiredNumberScheduled : Z
}.

(** [dataselect.DataCell] values: each concrete cell type is a Go type
    conversion of the wrapped resource. *)
Inductive DataCell :=
| PodCell (p : Pod)
| StatefulSetCell (s : StatefulSet)
| JobCell (j : BatchJob)
| DaemonSetCell (d : DaemonSet).

(** [dataselect.ComparableValue]; [None] stands for the nil interface. *)
Inductive ComparableValue :=
| StdComparableString (s : string)
| StdComparableTime (t : Z).

(** [dataselect.PropertyName] constants (declared in the [dataselect]
    package; only their distinctness matters here). *)
Definition NameProperty : string := "name".
Definition CreationTimestampProperty : string := "creationTimestamp".
Definition NamespaceProperty : string := "namespace".
Definition StatusProperty : string := "status".

Module pod.

(** [PodCell.GetProperty]. *)
Definition GetProperty (self : Pod) (name : string) : option ComparableValue :=
  if String.eqb name NameProperty then
    Some (StdComparableString (Name (PodObjectMeta self)))
  else if String.eqb name CreationTimestampProperty then
    Some (StdComparableTime (CreationTimestamp (PodObjectMeta self)))
  else if String.eqb name NamespaceProperty then
    Some (StdComparableString (Namespace (PodObjectMeta self)))
  else if String.eqb name StatusProperty then
    Some (StdComparableString (Phase (Status self)))
  else None.

(** [toCells]. *)
Definition toCells (std : list Pod) : list DataCell := map PodCell std.

(** The type assertion [cells[i].(PodCell)]; [None] is a panic. *)
Definition asPodCell (c : DataCell) : option Pod :=
  match c with PodCell p => Some p | _ => None end.

(** [fromCells]: the loop panics at the first cell of another type. *)
Fixpoint fromCells (cells : list DataCell) : option (list Pod) :=
  match cells with
  | [] => Some []
  | c :: rest =>
      match asPodCell c with
      | Some p => match fromCells rest with
                  | Some ps => Some (p :: ps)
                  | None => None
                  end
      | None => None
      end
  end.

End pod.

Module statefulset.

(** [StatefulSetCell.GetProperty]. *)
Definition GetProperty (self : StatefulSet) (name : string)
    : option ComparableValue :=
  if String.eqb name NameProperty then
    Some (StdComparableString (Name (SSObjectMeta self)))
  else if String.eqb name CreationTimestampProperty then
    Some (StdComparableTime (CreationTimestamp (SSObjectMeta self)))
  else if String.eqb name NamespaceProperty then
    Some (StdComparableString (Namespace (SSObjectMeta self)))
  else None.

(** [ToCells]. *)
Definition ToCells (std : list StatefulSet) : list DataCell :=
  map StatefulSetCell std.

Definition asStatefulSetCell (c : DataCell) : option StatefulSet :=
  match c with StatefulSetCell s => Some s | _ => None end.

(** [FromCells]. *)
Fixpoint FromCells (cells : list DataCell) : option (list StatefulSet) :=
  match cells with
  | [] => Some []
  | c :: rest =>
      match asStatefulSetCell c with
      | Some s => match FromCells rest with
                  | Some ss => Some (s :: ss)
                  | None => None
                  end
      | None => None
      end
  end.

End statefulset.

(** ** Sorting cells by a property

    Modelled from the spec: the comparison of [ComparableValue]s and the
    sort of the [dataselect] package (not part of the sources at hand),
    after section 4.2/4.3 of the spec: values of one kind compare by their
    natural order, a nil value compares equal to itself (so that an unknown
    property has no effect), and the sort is stable. *)
Definition compareValues (a b : option ComparableValue) : comparison :=
  match a, b with
  | Some (StdComparableString x), Some (StdComparableString y) =>
      String.compare x y
  | Some (StdComparableTime x), Some (StdComparableTime y) => Z.compare x y
  | _, _ => Eq
  end.

Section Sort.
Context {A : Type} (getProperty : A -> string -> option ComparableValue).

(** Modelled from the spec: multi-key comparison; a key with [true] is
    ascending, ties fall through to the next key. *)
Fixpoint compareBy (sortBy : list (string * bool)) (a b : A) : comparison :=
  match sortBy with
  | [] => Eq
  | (prop, asc) :: rest =>
      match compareValues (getProperty a prop) (getProperty b prop) with
      | Eq => compareBy rest a b
      | c => if asc then c else CompOpp c
      end
  end.

(** Modelled from the spec: a stable insertion sort. *)
Fixpoint insertCell (sortBy : list (string * bool)) (x : A) (l : list A)
    : list A :=
  match l with
  | [] => [x]
  | y :: l' =>
      match compareBy sortBy x y with
      | Lt => x :: y :: l'
      | _ => y :: insertCell sortBy x l'
      end
  end.

Definition sortCells (sortBy : list (string * bool)) (l : list A) : list A :=
  fold_left (fun acc x => insertCell sortBy x acc) l [].

End Sort.

(** ** Building list views ([CreateJobList], [CreateStatefulSetList],
    [CreateDaemonSetList]) *)

Record Metric := mkMetric {
  MetricName : string;
  MetricPoints : list (Z * Z)
}.

(** The result of [metricPromises.GetMetrics()]. *)
Definition MetricResult : Type := option (list Metric) * option GoError.

(** The shape shared by [JobList], [StatefulSetList] and [DaemonSetList]:
    [ListMeta.TotalItems], the item slice and [CumulativeMetrics]. *)
Record ListView (V : Type) := mkListView {
  TotalItems : Z;
  Items : option (list V);
  CumulativeMetrics : option (list Metric)
}.
Arguments mkListView {V}.
Arguments TotalItems {V}.
Arguments Items {V}.
Arguments CumulativeMetrics {V}.

Section CreateList.
Context {R V : Type}.
Variable ToCells : list R -> list DataCell.
Variable FromCells : list DataCell -> option (list R).

(** The body of the three list builders. [GenericDataSelectWithMetrics]
    stands for the call of the same name with the query, the cached pods
    and the metric client already applied: it returns the selected cells
    and the resolved metric promise. [toView] is the loop body that turns
    one selected resource into its view (matching pods, pod info, pod
    list). [None] is a panic of [FromCells]. *)
Definition createList
    (GenericDataSelectWithMetrics :
       list DataCell -> list DataCell * MetricResult)
    (toView : R -> V) (items : list R) : option (ListView V) :=
  let '(cells, metricPromise) := GenericDataSelectWithMetrics (ToCells items) in
  match FromCells cells with
  | None => None
  | Some selected =>
      let views := Some (map toView selected) in
      let '(cumulativeMetrics, err) := metricPromise in
      match err with
      | Some _ => Some (mkListView (Z.of_nat (length items)) views (Some []))
      | None =>
          Some (mkListView (Z.of_nat (length items)) views cumulativeMetrics)
      end
  end.

End CreateList.

Module job.

(** Modelled from the spec: [job.ToCells] (the job cell conversion is not
    among the sources at hand), a lossless conversion per section 4.2. *)
Definition ToCells (std : list BatchJob) : list DataCell := map JobCell std.

(** Modelled from the spec: [job.FromCells], the inverse conversion. *)
Definition FromCells (cells : list DataCell) : option (list BatchJob) :=
  mapM (fun c => match c with JobCell j => Some j | _ => None end) cells.

End job.

Module daemonset.

(** Modelled from the spec: [daemonset.ToCells] (not among the sources at
    hand), a lossless conversion per section 4.2. *)
Definition ToCells (std : list DaemonSet) : list DataCell :=
  map DaemonSetCell std.

(** Modelled from the spec: [daemonset.FromCells], the inverse conversion. *)
Definition FromCells (cells : list DataCell) : option (list DaemonSet) :=
  mapM (fun c => match c with DaemonSetCell d => Some d | _ => None end) cells.

End daemonset.

Definition CreateStatefulSetList {V} :=
  @createList StatefulSet V statefulset.ToCells statefulset.FromCells.

Definition CreateJobList {V} :=
  @createList BatchJob V job.ToCells job.FromCells.

Definition CreateDaemonSetList {V} :=
  @createList DaemonSet V daemonset.ToCells daemonset.FromCells.

(** ** Reading a channel bundle ([Get...ListFromChannels]) *)

(** One [ResourceChannel] of the bundle as the consumer reads it: the value
    received from [List], then the error received from [Error]. *)
Record ResourceChannel (A : Type) := mkResourceChannel {
  ChanList : A;
  ChanError : option GoError
}.
Arguments mkResourceChannel {A}.
Arguments ChanList {A}.
Arguments ChanError {A}.

(** The list returned on the [NotFound] path: only the item slice is set. *)
Definition emptyListView {V} : ListView V := mkListView 0 (Some []) None.

(** [statefulset.GetStatefulSetListFromChannels]; [CreateList] is the call
    of [CreateStatefulSetList] with the query and the metric client. The
    result is the returned pointer ([None] is nil) and the returned error. *)
Definition GetStatefulSetListFromChannels {V}
    (StatefulSetList : ResourceChannel (list StatefulSet))
    (PodList : ResourceChannel (list Pod))
    (EventList : ResourceChannel (list Event))
    (CreateList : list StatefulSet -> list Pod -> list Event -> ListView V)
    : option (ListView V) * option GoError :=
  let statefulSets := ChanList StatefulSetList in
  match ChanError StatefulSetList with
  | Some err => if isNotFound err then (Some emptyListView, None)
                else (None, Some err)
  | None =>
  let pods := ChanList PodList in
  match ChanError PodList with
  | Some err => (None, Some err)
  | None =>
  let events := ChanList EventList in
  match ChanError EventList with
  | Some err => (None, Some err)
  | None => (Some (CreateList statefulSets pods events), None)
  end end end.

(** [job.GetJobListFromChannels]. *)
Definition GetJobListFromChannels {V}
    (JobList : ResourceChannel (list BatchJob))
    (PodList : ResourceChannel (list Pod))
    (EventList : ResourceChannel (list Event))
    (CreateList : list BatchJob -> list Pod -> list Event -> ListView V)
    : option (ListView V) * option GoError :=
  let jobs := ChanList JobList in
  match ChanError JobList with
  | Some err => if isNotFound err then (Some emptyListView, None)
                else (None, Some err)
  | None =>
  let pods := ChanList PodList in
  match ChanError PodList with
  | Some err => (None, Some err)
  | None =>
  let events := ChanList EventList in
  match ChanError EventList with
  | Some err => (None, Some err)
  | None => (Some (CreateList jobs pods events), None)
  end end end.

(** [batch2.CronJob]: its spec and status are copied through unchanged. *)
Record CronJob := mkCronJob {
  CJObjectMeta : ObjectMeta
}.

(** [cronjob.GetCronJobListFromChannels]; the [CronJobList] is a
    [ListView] whose items are the cron jobs (its [Errors] field stays nil
    on every path). [CreateList] is [job.CreateJobList] followed by
    [toCronJobList]. *)
Definition GetCronJobListFromChannels {V}
    (CronJobList : ResourceChannel (list CronJob))
    (JobList : ResourceChannel (list BatchJob))
    (PodList : ResourceChannel (list Pod))
    (EventList : ResourceChannel (list Event))
    (CreateList : list CronJob -> list BatchJob -> list Pod -> list Event ->
                  ListView V)
    : option (ListView V) * option GoError :=
  let cronJobs := ChanList CronJobList in
  match ChanError CronJobList with
  | Some err => if isNotFound err then (Some emptyListView, None)
                else (None, Some err)
  | None =>
  let jobs := ChanList JobList in
  match ChanError JobList with
  | Some err => (None, Some err)
  | None =>
  let pods := ChanList PodList in
  match ChanError PodList with
  | Some err => (None, Some err)
  | None =>
  let events := ChanList EventList in
  match ChanError EventList with
  | Some err => (None, Some err)
  | None => (Some (CreateList cronJobs jobs pods events), None)
  end end end end.

(** ** Cron jobs and their jobs ([cronjob/list.go], [cronjob/detail.go]) *)

(** [pod.Pod], the view of a pod. *)
Record PodView := mkPodView {
  PVObjectMeta : ObjectMeta;
  PVPhase : string
}.

(** [pod.PodList]. *)
Record PodList := mkPodList {
  PLTotalItems : Z;
  Pods : list PodView
}.

(** [job.Job], the view of a job. *)
Record JobView := mkJobView {
  JObjectMeta : ObjectMeta;
  JPods : PodInfo;
  JPodList : PodList
}.

(** [common.ResourceKindCronJob] and [common.ResourceKindJob]. *)
Definition ResourceKindCronJob : string := "cronjob".
Definition ResourceKindJob : string := "job".

(** [cronjob.CronJob] (list view) and [cronjob.CronJobDetail] (detail
    view), restricted to the fields the aggregators compute. *)
Record CronJobView := mkCronJobView {
  CVObjectMeta : ObjectMeta;
  CVKind : string;
  CVPods : PodInfo;
  CVPodList : PodList
}.

Record CronJobDetail := mkCronJobDetail {
  CDObjectMeta : ObjectMeta;
  CDKind : string;
  CDPodInfo : PodInfo;
  CDPodList : PodList
}.

(** The five counter statements of both loops, e.g.
    [cron.Pods.Current = job.Pods.Succeeded + cron.Pods.Current]. *)
Definition addJobCounters (acc : PodInfo) (job : JobView) : PodInfo :=
  mkPodInfo (int32_add (Succeeded (JPods job)) (Current acc))
    (int32_add (Desired (JPods job)) (Desired acc))
    (int32_add (Running (JPods job)) (Running acc))
    (int32_add (Pending (JPods job)) (Pending acc))
    (int32_add (Failed (JPods job)) (Failed acc))
    (Succeeded acc) (Warnings acc).

Definition withWarnings (p : PodInfo) (w : option (list Event)) : PodInfo :=
  mkPodInfo (Current p) (Desired p) (Running p) (Pending p) (Failed p)
    (Succeeded p) w.

Definition withDesired (p : PodInfo) (d : Z) : PodInfo :=
  mkPodInfo (Current p) d (Running p) (Pending p) (Failed p) (Succeeded p)
    (Warnings p).

(** The zero [PodInfo] with [Warnings = make([]common.Event, 0)]. *)
Definition emptyPodInfo : PodInfo := mkPodInfo 0 0 0 0 0 0 (Some []).

(** The [for _, job := range jobs] loop of [toCronJob]. *)
Fixpoint toCronJobLoop (pi : PodInfo) (pods : list PodView)
    (jobs : list JobView) : PodInfo * list PodView :=
  match jobs with
  | [] => (pi, pods)
  | job :: rest =>
      let pi := addJobCounters pi job in
      let pi := match Warnings (JPods job) with
                | Some w => withWarnings pi (goAppend (Warnings pi) w)
                | None => pi
                end in
      toCronJobLoop pi (pods ++ Pods (JPodList job)) rest
  end.

(** [cronjob.toCronJob]. *)
Definition toCronJob (cronJob : CronJob) (jobs : list JobView) : CronJobView :=
  let '(pi, pods) := toCronJobLoop emptyPodInfo [] jobs in
  let pi := if Desired pi <? int32_wrap (Z.of_nat (length pods))
            then withDesired pi (int32_wrap (Z.of_nat (length pods)))
            else pi in
  mkCronJobView (CJObjectMeta cronJob) ResourceKindCronJob pi
    (mkPodList (Z.of_nat (length pods)) pods).

(** The loop of [toCronJobDetail], which leaves at the first job whose
    [Pods.Warnings] is nil, after adding its counters. *)
Fixpoint toCronJobDetailLoop (pi : PodInfo) (pods : list PodView)
    (jobs : list JobView) : PodInfo * list PodView :=
  match jobs with
  | [] => (pi, pods)
  | job :: rest =>
      let pi := addJobCounters pi job in
      match Warnings (JPods job) with
      | None => (pi, pods)
      | Some w =>
          toCronJobDetailLoop (withWarnings pi (goAppend (Warnings pi) w))
            (pods ++ Pods (JPodList job)) rest
      end
  end.

(** [cronjob.toCronJobDetail]. *)
Definition toCronJobDetail (cronjob : CronJob) (jobs : list JobView)
    : CronJobDetail :=
  let '(pi, pods) := toCronJobDetailLoop emptyPodInfo [] jobs in
  let pi := if Desired pi <? int32_wrap (Z.of_nat (length pods))
            then withDesired pi (int32_wrap (Z.of_nat (length pods)))
            else pi in
  mkCronJobDetail (CJObjectMeta cronjob) ResourceKindJob pi
    (mkPodList (Z.of_nat (length pods)) pods).

(** [api.CreatedByAnnotation]. *)
Definition CreatedByAnnotation : string := "kubernetes.io/created-by".

(** [api.ObjectReference], the [Reference] of an [api.SerializedReference]. *)
Record ObjectReference := mkObjectReference {
  RefKind : string;
  RefNamespace : string;
  RefName : string
}.

Section CreatedBy.

(** [json.Unmarshal] of the annotation value into an
    [api.SerializedReference], returning its [Reference] when it decodes
    and [None] when it reports an error. *)
Variable unmarshalSerializedReference : string -> option ObjectReference.

(** [cronjob.extractCreatedBy]. *)
Definition extractCreatedBy (annotation : gmap string string)
    : option ObjectReference :=
  match annotation !! CreatedByAnnotation with
  | Some value => unmarshalSerializedReference value
  | None => None
  end.

(** [cronjob.FilterJobByAnnotation]; [matchingJobs] starts as a nil slice. *)
Definition FilterJobByAnnotation (cronJob : CronJob) (jobs : list JobView)
    : option (list JobView) :=
  fold_left
    (fun matchingJobs job =>
       match extractCreatedBy (Annotations (JObjectMeta job)) with
       | None => matchingJobs
       | Some ref =>
           if String.eqb (RefName ref) (Name (CJObjectMeta cronJob)) &&
              String.eqb (Namespace (CJObjectMeta cronJob))
                (Namespace (JObjectMeta job))
           then goAppend matchingJobs [job] else matchingJobs
       end)
    jobs None.

(** [cronjob.extractCreatedByc] (detail.go), the same code. *)
Definition extractCreatedByc (annotation : gmap string string)
    : option ObjectReference :=
  match annotation !! CreatedByAnnotation with
  | Some value => unmarshalSerializedReference value
  | None => None
  end.

(** [cronjob.FilterJobByAnnotationc] (detail.go). *)
Definition FilterJobByAnnotationc (cronJob : CronJob) (jobs : list JobView)
    : option (list JobView) :=
  fold_left
    (fun matchingJobs job =>
       match extractCreatedByc (Annotations (JObjectMeta job)) with
       | None => matchingJobs
       | Some ref =>
           if String.eqb (RefName ref) (Name (CJObjectMeta cronJob)) &&
              String.eqb (Namespace (CJObjectMeta cronJob))
                (Namespace (JObjectMeta job))
           then goAppend matchingJobs [job] else matchingJobs
       end)
    jobs None.

End CreatedBy.

(** ** Fan-in of sibling fetches ([GetClusterFromChannels],
    [GetConfigFromChannels], [GetDiscoveryFromChannels])

    Each handler launches one goroutine per sub-list; goroutine [i] runs
    [items, err := Get...ListFromChannels(...); errChan <- err;
    itemChan_i <- items]. [errChan] is buffered with capacity [numErrs];
    each [itemChan_i] is unbuffered. The handler receives [numErrs] errors,
    returning at the first non-nil one, then receives and dereferences the
    items in the order of the composite literal. The state below is the
    goroutines' program counters, the content of [errChan] and the
    handler's program counter; a schedule chooses who moves next. The
    sub-lists have different Go types; the handler only moves them, so they
    share one type [Item] here. *)

Inductive GoroutinePC :=
| AtSendErr    (* before [errChan <- err] *)
| AtSendItem   (* before [itemChan_i <- items] *)
| Exited.

Record Fetcher (Item : Type) := mkFetcher {
  fItem : option Item;       (* [None] is a nil pointer *)
  fErr : option GoError;     (* [None] is a nil error *)
  fPC : GoroutinePC
}.
Arguments mkFetcher {Item}.
Arguments fItem {Item}.
Arguments fErr {Item}.
Arguments fPC {Item}.

Inductive Outcome (Item : Type) :=
| Returned (items : list Item)   (* the aggregate, fields in read order *)
| ReturnedError (e : GoError)    (* [return nil, err] *)
| Panicked.                      (* nil pointer dereference *)
Arguments Returned {Item}.
Arguments ReturnedError {Item}.
Arguments Panicked {Item}.

Inductive HandlerPC (Item : Type) :=
| RecvErr (i : nat)                          (* loop iteration [i] *)
| RecvItems (pending : list nat) (acc : list Item)
| Done (o : Outcome Item).
Arguments RecvErr {Item}.
Arguments RecvItems {Item}.
Arguments Done {Item}.

Record FanInState (Item : Type) := mkFanInState {
  fetchers : list (Fetcher Item);
  errChan : list (option GoError);
  handler : HandlerPC Item
}.
Arguments mkFanInState {Item}.
Arguments fetchers {Item}.
Arguments errChan {Item}.
Arguments handler {Item}.

(** A handler: the [numErrs] constant (capacity of [errChan] and bound of
    the receive loop) and the goroutines whose items the composite literal
    receives, in order. *)
Record Aggregator := mkAggregator {
  numErrs : nat;
  readOrder : list nat
}.

Inductive Actor :=
| Goroutine (i : nat)
| Handler.

Section FanIn.
Context {Item : Type}.
Variable agg : Aggregator.

Definition setPC (f : Fetcher Item) (pc : GoroutinePC) : Fetcher Item :=
  mkFetcher (fItem f) (fErr f) pc.

(** One move of goroutine [i]: a buffered send on [errChan] when it has
    room, or the rendezvous on its unbuffered item channel when the handler
    is receiving from that very channel. *)
Definition stepGoroutine (i : nat) (s : FanInState Item)
    : option (FanInState Item) :=
  match fetchers s !! i with
  | None => None
  | Some f =>
      match fPC f with
      | AtSendErr =>
          if bool_decide (length (errChan s) < numErrs agg)%nat then
            Some (mkFanInState (<[i := setPC f AtSendItem]> (fetchers s))
                    (errChan s ++ [fErr f]) (handler s))
          else None
      | AtSendItem =>
          match handler s with
          | RecvItems (j :: rest) acc =>
              if Nat.eqb i j then
                Some (mkFanInState (<[i := setPC f Exited]> (fetchers s))
                        (errChan s)
                        (match fItem f with
                         | Some x => RecvItems rest (acc ++ [x])
                         | None => Done Panicked
                         end))
              else None
          | _ => None
          end
      | Exited => None
      end
  end.

(** One move of the handler. *)
Definition stepHandler (s : FanInState Item) : option (FanInState Item) :=
  match handler s with
  | RecvErr k =>
      if bool_decide (k < numErrs agg)%nat then
        match errChan s with
        | [] => None
        | Some err :: q =>
            Some (mkFanInState (fetchers s) q (Done (ReturnedError err)))
        | None :: q => Some (mkFanInState (fetchers s) q (RecvErr (S k)))
        end
      else Some (mkFanInState (fetchers s) (errChan s)
                   (RecvItems (readOrder agg) []))
  | RecvItems [] acc => Some (mkFanInState (fetchers s) (errChan s)
                               (Done (Returned acc)))
  | _ => None
  end.

Definition step (a : Actor) (s : FanInState Item) : option (FanInState Item) :=
  match a with
  | Goroutine i => stepGoroutine i s
  | Handler => stepHandler s
  end.

(** Run a schedule; [None] when the chosen actor cannot move. *)
Fixpoint run (sched : list Actor) (s : FanInState Item)
    : option (FanInState Item) :=
  match sched with
  | [] => Some s
  | a :: rest =>
      match step a s with
      | Some s' => run rest s'
      | None => None
      end
  end.

End FanIn.

(** The state right after the [go] statements: goroutine [i] has computed
    the [i]-th sub-result [(items, err)]. *)
Definition initState {Item} (subs : list (option Item * option GoError))
    : FanInState Item :=
  mkFanInState (map (fun '(it, e) => mkFetcher it e AtSendErr) subs) []
    (RecvErr 0).

(** [cluster.GetClusterFromChannels]: five goroutines (namespace, node,
    persistent volume, RBAC role, storage class), [numErrs := 4]. *)
Definition GetClusterFromChannels : Aggregator := mkAggregator 4 [0; 1; 2; 3; 4]%nat.

(** [config.GetConfigFromChannels]: three goroutines (config map, secret,
    claim), [numErrs := 3]; the literal reads config map, claim, secret. *)
Definition GetConfigFromChannels : Aggregator := mkAggregator 3 [0; 2; 1]%nat.

(** [discovery.GetDiscoveryFromChannels]: two goroutines (service,
    ingress), [numErrs := 2]. *)
Definition GetDiscoveryFromChannels : Aggregator := mkAggregator 2 [0; 1]%nat.

(** The counting invariant of a fan-in handler: while it receives errors
    ([RecvErr k]), the [k] errors read (all nil) and the errors still
    buffered in [errChan] are those of the goroutines that have sent; once
    it is past the receive loop, every sub-result had a nil error. *)
Definition errCountInvariant {Item} (s : FanInState Item) : Prop :=
  match handler s with
   | RecvErr k =>
       (k + length (errChan s) =
          length (List.filter (fun f => match fPC f with AtSendErr => false | _ => true end)
                    (fetchers s)) /\
        k + length (List.filter (fun x => match x with None => true | _ => false end)
                      (errChan s)) =
          length (List.filter (fun f => match fPC f, fErr f with
                                         | AtSendErr, _ => false
                                         | _, None => true
                                         | _, Some _ => false end)
                    (fetchers s)))%nat
   | Done (ReturnedError _) => True
   | _ => Forall (fun f => fErr f = None) (fetchers s)
   end.

(** ** Further list and pod code *)

(** [common.GetPodInfo]: like [GetPodEventInfo], but each pod is counted
    by its own [Status.Phase]; [Warnings] is [make([]Event, 0)]. *)
Definition GetPodInfo (current desired : Z) (pods : list Pod) : PodInfo :=
  fold_left (fun r pod => countPhase r (Phase (Status pod))) pods
    (mkPodInfo current desired 0 0 0 0 (Some [])).

(** [pod.GetPodPhaseStatus], a copy of [common.getPodPhaseStatus] in the
    pod package. *)
Definition GetPodPhaseStatus (pod : Pod) (warnings : list Event) : string :=
  if String.eqb (Phase (Status pod)) PodFailed then PodFailed
  else if String.eqb (Phase (Status pod)) PodSucceeded then PodSucceeded
  else
    let '(ready, initialized) := readyInitialized (Conditions (Status pod)) in
    if initialized && ready then PodRunning
    else if bool_decide (0 < length warnings)%nat then PodFailed
    else PodPending.

(** [daemonset.GetDaemonSetListFromChannels]; [CreateList] is the call of
    [CreateDaemonSetList] with the query and the metric client. *)
Definition GetDaemonSetListFromChannels {V}
    (DaemonSetList : ResourceChannel (list DaemonSet))
    (PodList : ResourceChannel (list Pod))
    (EventList : ResourceChannel (list Event))
    (CreateList : list DaemonSet -> list Pod -> list Event -> ListView V)
    : option (ListView V) * option GoError :=
  let daemonSets := ChanList DaemonSetList in
  match ChanError DaemonSetList with
  | Some err => (None, Some err)
  | None =>
  let pods := ChanList PodList in
  match ChanError PodList with
  | Some err => (None, Some err)
  | None =>
  let events := ChanList EventList in
  match ChanError EventList with
  | Some err => (None, Some err)
  | None => (Some (CreateList daemonSets pods events), None)
  end end end.

(** [cronjob.toCronJobList]; the [CronJobList] is a [ListView] of cron job
    views, [jobs] the [Jobs] of the [job.JobList] built from the same
    channels. [matchingJob] is nil when no job matches, and ranging over a
    nil slice runs no iteration. *)
Definition toCronJobList (unmarshalSerializedReference : string -> option ObjectReference)
    (cronJobs : list CronJob) (jobs : list JobView) : ListView CronJobView :=
  let items :=
    fold_left
      (fun acc cronJob =>
         let matchingJob :=
           FilterJobByAnnotation unmarshalSerializedReference cronJob jobs in
         goAppend acc [toCronJob cronJob (default [] matchingJob)])
      cronJobs (Some []) in
  mkListView (Z.of_nat (length cronJobs)) items (Some []).

(** ** Metric data points ([metric/heapsterdatamodel.go]) *)

(** A [heapster.MetricPoint] as the conversion reads it: [Timestamp.Unix()]
    and the [uint64] [Value]. *)
Record MetricPoint := mkMetricPoint {
  Timestamp : Z;
  Value : Z
}.

(** [metric.DataPoint]: two [int64]. *)
Record DataPoint := mkDataPoint {
  X : Z;
  Y : Z
}.

(** Go's conversion [int64(v)] of a 64-bit unsigned value. *)
Definition int64_wrap (z : Z) : Z := (z + 2 ^ 63) mod 2 ^ 64 - 2 ^ 63.

(** [metric.DataPointsFromMetricJSONFormat]; [dp] starts as the non-nil
    [DataPoints{}]. *)
Definition DataPointsFromMetricJSONFormat (metrics : list MetricPoint)
    : option (list DataPoint) :=
  fold_left
    (fun dp raw =>
       let converted := mkDataPoint (Timestamp raw) (int64_wrap (Value raw)) in
       let converted := if Y converted <? 0 then mkDataPoint (X converted) 0
                        else converted in
       goAppend dp [converted])
    metrics (Some []).

(** ** Request helpers of the API handler *)

(** [strings.Split(s, sep)] for a one-byte separator: the pieces between
    the occurrences of [sep], in order; [Split("", sep)] is [[""]]. *)
Fixpoint Split (s : string) (sep : Ascii.ascii) : list string :=
  match s with
  | EmptyString => [EmptyString]
  | String a rest =>
      let parts := Split rest sep in
      if Ascii.eqb a sep then EmptyString :: parts
      else match parts with
           | p :: ps => String a p :: ps
           | [] => [String a EmptyString]
           end
  end.

(** [strings.TrimLeft(s, " ")]. *)
Fixpoint TrimLeftSpace (s : string) : string :=
  match s with
  | EmptyString => EmptyString
  | String a rest => if Ascii.eqb a " "%char then TrimLeftSpace rest else s
  end.

(** [strings.TrimRight(s, " ")]. *)
Fixpoint TrimRightSpace (s : string) : string :=
  match s with
  | EmptyString => EmptyString
  | String a rest =>
      match TrimRightSpace rest with
      | EmptyString => if Ascii.eqb a " "%char then EmptyString
                       else String a EmptyString
      | r => String a r
      end
  end.

(** [strings.Trim(s, " ")], which trims the left end, then the right. *)
Definition Trim (s : string) : string := TrimRightSpace (TrimLeftSpace s).

(** The [nonEmptyNamespaces] slice of [parseNamespacePathParameter] (the
    argument it passes to [common.NewNamespaceQuery]) for the path
    parameter [namespace]; it starts as a nil slice. *)
Definition parseNamespacePathParameter (namespace : string) : option (list string) :=
  fold_left
    (fun nonEmptyNamespaces n =>
       let n := Trim n in
       if bool_decide (0 < String.length n)%nat
       then goAppend nonEmptyNamespaces [n] else nonEmptyNamespaces)
    (Split namespace ","%char) None.

(** The [metricNames] and [aggregationNames] that [parseMetricPathParameter]
    passes to [dataselect.NewMetricQuery] for the query parameters
    [metricNames] and [aggregations]. *)
Definition parseMetricPathParameter (metricNamesParam aggregationsParam : string)
    : option (list string) * option (list string) :=
  let metricNames :=
    if String.eqb metricNamesParam "" then None
    else Some (Split metricNamesParam ","%char) in
  let rawAggregations :=
    if String.eqb aggregationsParam "" then None
    else Some (Split aggregationsParam ","%char) in
  let aggregationNames :=
    fold_left (fun acc e => goAppend acc [e]) (default [] rawAggregations)
      (Some []) in
  (metricNames, aggregationNames).

(** The result of [mapUrlToResource]: a nil pointer, a pointer to the
    resource segment, or the index-out-of-range panic of [parts[3]]. *)
Inductive UrlResource :=
| ResourceNil
| ResourceOf (r : string)
| IndexOutOfRange.

(** [mapUrlToResource]. *)
Definition mapUrlToResource (url : string) : UrlResource :=
  let parts := Split url "/"%char in
  if bool_decide (length parts < 3)%nat then ResourceNil
  else match parts !! 3%nat with
       | Some r => ResourceOf r
       | None => IndexOutOfRange
       end.

(** [shouldDoCsrfValidation] of a request with the given HTTP method and
    selected route path. *)
Definition shouldDoCsrfValidation (method routePath : string) : bool :=
  if negb (String.eqb method "POST") then false
  else if String.prefix "/api/v1/appdeployment/validate/" routePath then false
  else false.

(** What the filter of [xsrfValidation] does with a request: answer
    [401 Unauthorized], pass it down the chain, or panic. *)
Inductive FilterOutcome :=
| Unauthorized
| Processed
| FilterPanic.

Section Xsrf.

(** [xsrftoken.Valid(token, key, userID, actionID)]. *)
Variable xsrftokenValid : string -> string -> string -> string -> bool.

(** The filter returned by [xsrfValidation csrfKey], on a request with the
    given method, selected route path and [X-CSRF-TOKEN] header. *)
Definition xsrfValidation (csrfKey method routePath csrfToken : string)
    : FilterOutcome :=
  match mapUrlToResource routePath with
  | IndexOutOfRange => FilterPanic
  | ResourceNil => Unauthorized
  | ResourceOf resource =>
      if shouldDoCsrfValidation method routePath &&
         negb (xsrftokenValid csrfToken csrfKey "none" resource)
      then Unauthorized else Processed
  end.

End Xsrf.

(** * Properties *)

(** ** Machine integer lemmas *)

Lemma int32_wrap_small (z : Z) : - 2 ^ 31 <= z < 2 ^ 31 -> int32_wrap z = z.
Proof.
  intros Hz. unfold int32_wrap.
  rewrite Z.mod_small by lia. lia.
Qed.

Lemma int32_wrap_add_l (x y : Z) : int32_wrap (int32_wrap x + y) = int32_wrap (x + y).
Proof.
  unfold int32_wrap.
  replace ((x + 2 ^ 31) mod 2 ^ 32 - 2 ^ 31 + y + 2 ^ 31)
    with ((x + 2 ^ 31) mod 2 ^ 32 + y) by lia.
  rewrite Zplus_mod_idemp_l. f_equal. f_equal. lia.
Qed.

(** ** Cells *)

Lemma statefulset_FromCells_ToCells (x : list StatefulSet) :
  statefulset.FromCells (statefulset.ToCells x) = Some x.
Proof.
  induction x as [|s rest IH]; [reflexivity|].
  cbn [statefulset.ToCells map statefulset.FromCells statefulset.asStatefulSetCell].
  fold (statefulset.ToCells rest). rewrite IH. reflexivity.
Qed.

Lemma pod_fromCells_toCells (x : list Pod) :
  pod.fromCells (pod.toCells x) = Some x.
Proof.
  induction x as [|p rest IH]; [reflexivity|].
  cbn [pod.toCells map pod.fromCells pod.asPodCell].
  fold (pod.toCells rest). rewrite IH. reflexivity.
Qed.

(** C4: converting stateful sets or pods to cells and back never panics and
    gives back the same slice: element [i] of the output is element [i] of
    the input. *)
Theorem FromCells_ToCells_roundtrip :
  (forall x : list StatefulSet,
      statefulset.FromCells (statefulset.ToCells x) = Some x) /\
  (forall x : list Pod, pod.fromCells (pod.toCells x) = Some x).
Proof.
  split; [exact statefulset_FromCells_ToCells | exact pod_fromCells_toCells].
Qed.

(** ** Pod classification *)

Lemma readyInitialized_fold (conds : list PodCondition) (r i : bool) :
  fold_left readyInitializedStep conds (r, i) =
  (fold_left (condStep PodReady) conds r,
   fold_left (condStep PodInitialized) conds i).
Proof.
  revert r i; induction conds as [|c rest IH]; intros r i; [reflexivity|].
  simpl. rewrite <- IH. reflexivity.
Qed.

Lemma condStep_fold (t : string) (conds : list PodCondition) (r : bool) :
  NoDup (map CondType conds) ->
  fold_left (condStep t) conds r = true <->
  (exists c, In c conds /\ CondType c = t /\ CondStatus c = ConditionTrue) \/
  (r = true /\ forall c, In c conds -> CondType c <> t).
Proof.
  revert r; induction conds as [|c rest IH]; intros r Hnd; simpl.
  - split.
    + intros ->. right. split; [reflexivity | tauto].
    + intros [[c [[] _]] | [-> _]]. reflexivity.
  - apply NoDup_cons in Hnd as [Hnotin Hnd].
    rewrite IH by exact Hnd. unfold condStep.
    assert (Hrest : CondType c = t -> forall c', In c' rest -> CondType c' <> t).
    { intros Ht c' Hin Heq. apply Hnotin. apply list_elem_of_In.
      rewrite Ht, <- Heq. apply in_map. exact Hin. }
    destruct (String.eqb_spec (CondType c) t) as [Ht|Ht].
    + specialize (Hrest Ht).
      destruct (String.eqb_spec (CondStatus c) ConditionTrue) as [Hs|Hs].
      * split; [intros _; left; exists c; auto | intros _; right; auto].
      * split.
        -- intros [[c' [Hin [Ht' _]]] | [Hf _]]; [|discriminate].
           exfalso. exact (Hrest c' Hin Ht').
        -- intros [[c' [[<- | Hin] [Ht' Hs']]] | [_ Hall]].
           ++ contradiction.
           ++ exfalso. exact (Hrest c' Hin Ht').
           ++ exfalso. exact (Hall c (or_introl eq_refl) Ht).
    + split.
      * intros [[c' [Hin Hc']] | [Hr Hall]].
        -- left. exists c'. auto.
        -- right. split; [exact Hr|]. intros c' [<- | Hin]; auto.
      * intros [[c' [[<- | Hin] [Ht' Hs']]] | [Hr Hall]].
        -- contradiction.
        -- left. exists c'. auto.
        -- right. auto.
Qed.

Lemma readyInitialized_spec (conds : list PodCondition) :
  NoDup (map CondType conds) ->
  (fst (readyInitialized conds) = true <->
   exists c, In c conds /\ CondType c = PodReady /\ CondStatus c = ConditionTrue) /\
  (snd (readyInitialized conds) = true <->
   exists c, In c conds /\ CondType c = PodInitialized /\
             CondStatus c = ConditionTrue).
Proof.
  intros Hnd. unfold readyInitialized. rewrite readyInitialized_fold. simpl.
  split; rewrite condStep_fold by exact Hnd;
    (split; [intros [H | [H _]]; [exact H | discriminate] | intros H; left; exact H]).
Qed.

(** C5: the pod classifiers [getPodPhaseStatus] and [getPodStatusStatus]
    (for pods whose conditions have distinct types, as the API server
    keeps them): a [Failed] phase gives failed and a [Succeeded] phase
    gives succeeded ("success"); otherwise the pod is running ("success")
    when both its Ready and Initialized conditions are true; otherwise it
    is failed when there is at least one warning event, and pending when
    there is none. *)
Theorem pod_status_precedence (pod : Pod) (warnings : list Event) :
  NoDup (map CondType (Conditions (Status pod))) ->
  let ready := exists c, In c (Conditions (Status pod)) /\
                 CondType c = PodReady /\ CondStatus c = ConditionTrue in
  let initialized := exists c, In c (Conditions (Status pod)) /\
                 CondType c = PodInitialized /\ CondStatus c = ConditionTrue in
  (Phase (Status pod) = PodFailed ->
     getPodPhaseStatus pod warnings = PodFailed /\
     getPodStatusStatus pod warnings = "failed") /\
  (Phase (Status pod) = PodSucceeded ->
     getPodPhaseStatus pod warnings = PodSucceeded /\
     getPodStatusStatus pod warnings = "success") /\
  (Phase (Status pod) <> PodFailed -> Phase (Status pod) <> PodSucceeded ->
     (ready /\ initialized ->
        getPodPhaseStatus pod warnings = PodRunning /\
        getPodStatusStatus pod warnings = "success") /\
     (~ (ready /\ initialized) -> warnings <> [] ->
        getPodPhaseStatus pod warnings = PodFailed /\
        getPodStatusStatus pod warnings = "failed") /\
     (~ (ready /\ initialized) -> warnings = [] ->
        getPodPhaseStatus pod warnings = PodPending /\
        getPodStatusStatus pod warnings = "pending")).
Proof.
  intros Hnd ready initialized.
  destruct (readyInitialized_spec _ Hnd) as [HR HI].
  unfold getPodPhaseStatus, getPodStatusStatus.
  destruct (readyInitialized (Conditions (Status pod))) as [r i]. simpl in HR, HI.
  split; [intros Hf; rewrite Hf; split; reflexivity|].
  split; [intros Hs; rewrite Hs; split; reflexivity|].
  intros Hnf Hns.
  destruct (String.eqb_spec (Phase (Status pod)) PodFailed); [contradiction|].
  destruct (String.eqb_spec (Phase (Status pod)) PodSucceeded); [contradiction|].
  assert (Hri : i && r = true <-> ready /\ initialized).
  { unfold ready, initialized. rewrite andb_true_iff, <- HR, <- HI. tauto. }
  split; [|split].
  - intros H. apply Hri in H. rewrite H. split; reflexivity.
  - intros Hnot Hw.
    destruct (i && r); [exfalso; apply Hnot, Hri; reflexivity|].
    destruct warnings as [|w ws]; [contradiction|].
    rewrite bool_decide_true by (simpl; lia). split; reflexivity.
  - intros Hnot ->.
    destruct (i && r); [exfalso; apply Hnot, Hri; reflexivity|].
    rewrite bool_decide_false by (simpl; lia). split; reflexivity.
Qed.

Lemma pod_status_precedence_witness :
  let pod := mkPod (mkObjectMeta "web-0" "default" 0 ∅)
               (mkPodStatus PodRunning
                  [mkPodCondition PodInitialized ConditionTrue;
                   mkPodCondition PodReady ConditionTrue]) in
  NoDup (map CondType (Conditions (Status pod))) /\
  getPodPhaseStatus pod [mkEvent "BackOff" "restarting"] = PodRunning /\
  getPodStatusStatus pod [mkEvent "BackOff" "restarting"] = "success".
Proof.
  intros pod.
  assert (Hnd : NoDup (map CondType (Conditions (Status pod)))).
  { apply (bool_decide_unpack _). vm_compute. reflexivity. }
  split; [exact Hnd|].
  destruct (pod_status_precedence pod [mkEvent "BackOff" "restarting"] Hnd)
    as (_ & _ & Hrun).
  refine (proj1 (Hrun _ _) _).
  - discriminate.
  - discriminate.
  - split.
    + exists (mkPodCondition PodReady ConditionTrue).
      split; [right; left; reflexivity | split; reflexivity].
    + exists (mkPodCondition PodInitialized ConditionTrue).
      split; [left; reflexivity | split; reflexivity].
Defined.

(** ** Pod counters *)

Lemma getPodPhaseStatus_cases (pod : Pod) (w : list Event) :
  getPodPhaseStatus pod w = PodRunning \/ getPodPhaseStatus pod w = PodPending \/
  getPodPhaseStatus pod w = PodFailed \/ getPodPhaseStatus pod w = PodSucceeded.
Proof.
  unfold getPodPhaseStatus.
  destruct (String.eqb _ PodFailed); [tauto|].
  destruct (String.eqb _ PodSucceeded); [tauto|].
  destruct (readyInitialized _) as [r i].
  destruct (i && r); [tauto|].
  destruct (bool_decide _); tauto.
Qed.

Lemma countPhase_step (r : PodInfo) (ph : string) :
  (ph = PodRunning \/ ph = PodPending \/ ph = PodFailed \/ ph = PodSucceeded) ->
  0 <= Running r -> 0 <= Pending r -> 0 <= Failed r -> 0 <= Succeeded r ->
  Running r + Pending r + Failed r + Succeeded r < 2 ^ 31 - 1 ->
  let r' := countPhase r ph in
  Current r' = Current r /\ Desired r' = Desired r /\
  0 <= Running r' /\ 0 <= Pending r' /\ 0 <= Failed r' /\ 0 <= Succeeded r' /\
  Running r' + Pending r' + Failed r' + Succeeded r' =
  Running r + Pending r + Failed r + Succeeded r + 1.
Proof.
  intros Hph H1 H2 H3 H4 Hs.
  destruct Hph as [-> | [-> | [-> | ->]]];
    unfold countPhase, PodRunning, PodPending, PodFailed, PodSucceeded; simpl;
    unfold int32_add; rewrite int32_wrap_small by lia; lia.
Qed.

Lemma GetPodEventInfo_fold (pods : list Pod) (w : list Event) (r : PodInfo) :
  0 <= Running r -> 0 <= Pending r -> 0 <= Failed r -> 0 <= Succeeded r ->
  Running r + Pending r + Failed r + Succeeded r + Z.of_nat (length pods) < 2 ^ 31 ->
  let r' := fold_left (fun r pod => countPhase r (getPodPhaseStatus pod w)) pods r in
  Current r' = Current r /\ Desired r' = Desired r /\
  0 <= Running r' /\ 0 <= Pending r' /\ 0 <= Failed r' /\ 0 <= Succeeded r' /\
  Running r' + Pending r' + Failed r' + Succeeded r' =
  Running r + Pending r + Failed r + Succeeded r + Z.of_nat (length pods).
Proof.
  revert r; induction pods as [|p rest IH]; intros r H1 H2 H3 H4 Hs; simpl.
  - lia.
  - simpl in Hs.
    destruct (countPhase_step r (getPodPhaseStatus p w)
                (getPodPhaseStatus_cases p w) H1 H2 H3 H4 ltac:(lia))
      as (Hc & Hd & H1' & H2' & H3' & H4' & Hsum).
    destruct (IH (countPhase r (getPodPhaseStatus p w)) H1' H2' H3' H4' ltac:(lia))
      as (Hc' & Hd' & H1'' & H2'' & H3'' & H4'' & Hsum').
    lia.
Qed.

(** C10 (amended): for every list of fewer than [2^31] pods, [GetPodEventInfo]
    passes [current] and [desired] through unchanged and its running,
    pending, failed and succeeded counters sum to the number of pods. *)
Theorem GetPodEventInfo_counts (current desired : Z) (pods : list Pod)
    (eve : option (list Event)) :
  Z.of_nat (length pods) < 2 ^ 31 ->
  let r := GetPodEventInfo current desired pods eve in
  Current r = current /\ Desired r = desired /\
  Running r + Pending r + Failed r + Succeeded r = Z.of_nat (length pods).
Proof.
  intros Hlen. unfold GetPodEventInfo. simpl.
  destruct (GetPodEventInfo_fold pods (default [] eve)
              (mkPodInfo current desired 0 0 0 0 (Some [])))
    as (Hc & Hd & _ & _ & _ & _ & Hsum); simpl; try lia.
  simpl in Hc, Hd, Hsum. lia.
Qed.

Lemma GetPodEventInfo_counts_witness :
  let pods := [mkPod (mkObjectMeta "web-0" "default" 0 ∅) (mkPodStatus PodRunning []);
               mkPod (mkObjectMeta "web-1" "default" 0 ∅) (mkPodStatus PodFailed [])] in
  Z.of_nat (length pods) < 2 ^ 31 /\
  (let r := GetPodEventInfo 2 3 pods None in
   Current r = 2 /\ Desired r = 3 /\
   Running r + Pending r + Failed r + Succeeded r = Z.of_nat (length pods)).
Proof.
  intros pods. split.
  - simpl. lia.
  - apply (GetPodEventInfo_counts 2 3 pods None). simpl. lia.
Defined.

Lemma fold_repeat_failed (n : nat) (p : Pod) (w : list Event) (r : PodInfo) (a : Z) :
  getPodPhaseStatus p w = PodFailed -> Failed r = int32_wrap a ->
  let r' := fold_left (fun r pod => countPhase r (getPodPhaseStatus pod w))
              (repeat p n) r in
  Running r' = Running r /\ Pending r' = Pending r /\
  Failed r' = int32_wrap (a + Z.of_nat n) /\ Succeeded r' = Succeeded r.
Proof.
  intros Hp. revert r a; induction n as [|n IH]; intros r a Ha; simpl.
  - rewrite Z.add_0_r. auto.
  - rewrite Hp.
    destruct (IH (countPhase r PodFailed) (a + 1)) as (H1 & H2 & H3 & H4).
    { unfold countPhase, PodRunning, PodPending, PodFailed; simpl.
      unfold int32_add. rewrite Ha, int32_wrap_add_l. reflexivity. }
    rewrite H1, H2, H3, H4.
    unfold countPhase, PodRunning, PodPending, PodFailed; simpl.
    split; [reflexivity|]. split; [reflexivity|]. split; [|reflexivity].
    f_equal. lia.
Qed.

(** C10 counterexample: with [2^31] failed pods the [int32] counter
    [Failed] wraps to [-2^31], so the counters no longer sum to the number
    of pods. *)
Lemma GetPodEventInfo_int32_overflow :
  ~ (forall (current desired : Z) (pods : list Pod) (eve : option (list Event)),
       let r := GetPodEventInfo current desired pods eve in
       Current r = current /\ Desired r = desired /\
       Running r + Pending r + Failed r + Succeeded r = Z.of_nat (length pods)).
Proof.
  intros H.
  assert (exists n : nat, Z.of_nat n = 2 ^ 31) as [n Hn].
  { exists (Z.to_nat (2 ^ 31)). apply Z2Nat.id. lia. }
  set (p := mkPod (mkObjectMeta "job-x" "default" 0 ∅) (mkPodStatus PodFailed [])).
  destruct (H 0 0 (repeat p n) None) as (_ & _ & Hsum).
  unfold GetPodEventInfo in Hsum. simpl in Hsum.
  destruct (fold_repeat_failed n p [] (mkPodInfo 0 0 0 0 0 0 (Some [])) 0
              eq_refl eq_refl) as (H1 & H2 & H3 & H4).
  simpl in H1, H2, H4.
  rewrite H1, H2, H3, H4, repeat_length, Hn in Hsum.
  vm_compute in Hsum. discriminate.
Qed.

(** ** Reading channel bundles *)

(** C2: [GetStatefulSetListFromChannels], [GetJobListFromChannels] and
    [GetCronJobListFromChannels] turn a [NotFound] status error of the
    primary list into a non-nil empty list and a nil error; any other
    error, of the primary list or of a later fetch, is returned with a nil
    list (the first error in the order the channels are read). *)
Theorem list_from_channels_errors :
  (forall V ss pods events create,
     let r := @GetStatefulSetListFromChannels V ss pods events create in
     (ChanError ss = Some (StatusError "NotFound") ->
        r = (Some (mkListView 0 (Some []) None), None)) /\
     (forall e, ChanError ss = Some e -> e <> StatusError "NotFound" ->
        r = (None, Some e)) /\
     (forall e, ChanError ss = None -> ChanError pods = Some e -> r = (None, Some e)) /\
     (forall e, ChanError ss = None -> ChanError pods = None ->
        ChanError events = Some e -> r = (None, Some e))) /\
  (forall V jobs pods events create,
     let r := @GetJobListFromChannels V jobs pods events create in
     (ChanError jobs = Some (StatusError "NotFound") ->
        r = (Some (mkListView 0 (Some []) None), None)) /\
     (forall e, ChanError jobs = Some e -> e <> StatusError "NotFound" ->
        r = (None, Some e)) /\
     (forall e, ChanError jobs = None -> ChanError pods = Some e -> r = (None, Some e)) /\
     (forall e, ChanError jobs = None -> ChanError pods = None ->
        ChanError events = Some e -> r = (None, Some e))) /\
  (forall V cronJobs jobs pods events create,
     let r := @GetCronJobListFromChannels V cronJobs jobs pods events create in
     (ChanError cronJobs = Some (StatusError "NotFound") ->
        r = (Some (mkListView 0 (Some []) None), None)) /\
     (forall e, ChanError cronJobs = Some e -> e <> StatusError "NotFound" ->
        r = (None, Some e)) /\
     (forall e, ChanError cronJobs = None -> ChanError jobs = Some e ->
        r = (None, Some e)) /\
     (forall e, ChanError cronJobs = None -> ChanError jobs = None ->
        ChanError pods = Some e -> r = (None, Some e)) /\
     (forall e, ChanError cronJobs = None -> ChanError jobs = None ->
        ChanError pods = None -> ChanError events = Some e -> r = (None, Some e))).
Proof.
  assert (Hnf : forall e, e <> StatusError "NotFound" -> isNotFound e = false).
  { intros [r|m] Hne; simpl; [|reflexivity].
    destruct (String.eqb_spec r "NotFound") as [->|]; [contradiction|reflexivity]. }
  split; [|split]; intros; subst r;
    unfold GetStatefulSetListFromChannels, GetJobListFromChannels,
      GetCronJobListFromChannels;
    repeat split; intros;
    repeat match goal with H : ChanError _ = _ |- _ => rewrite H; clear H end;
    try reflexivity;
    match goal with H : _ <> StatusError "NotFound" |- _ => rewrite (Hnf _ H) end;
    reflexivity.
Qed.

Lemma list_from_channels_errors_witness :
  let nf := mkResourceChannel ([] : list StatefulSet) (Some (StatusError "NotFound")) in
  let pods := mkResourceChannel ([] : list Pod) (Some (OtherError "timeout")) in
  let events := mkResourceChannel ([] : list Event) None in
  let ok := mkResourceChannel ([] : list StatefulSet) None in
  let create := fun (_ : list StatefulSet) (_ : list Pod) (_ : list Event) =>
                  @emptyListView nat in
  GetStatefulSetListFromChannels nf pods events create =
    (Some (mkListView 0 (Some []) None), None) /\
  GetStatefulSetListFromChannels ok pods events create =
    (None, Some (OtherError "timeout")).
Proof.
  intros nf pods events ok create.
  destruct list_from_channels_errors as [Hss _].
  split.
  - apply (proj1 (Hss nat nf pods events create)). reflexivity.
  - apply (proj1 (proj2 (proj2 (Hss nat ok pods events create))));
      reflexivity.
Defined.

(** ** Building list views *)

Lemma createList_metric_error {R V : Type} (ToCells : list R -> list DataCell)
    (FromCells : list DataCell -> option (list R))
    (GenericDataSelectWithMetrics : list DataCell -> list DataCell * MetricResult)
    (toView : R -> V) (items : list R) (e : GoError) :
  snd (snd (GenericDataSelectWithMetrics (ToCells items))) = Some e ->
  createList ToCells FromCells GenericDataSelectWithMetrics toView items =
  match FromCells (fst (GenericDataSelectWithMetrics (ToCells items))) with
  | Some selected =>
      Some (mkListView (Z.of_nat (length items)) (Some (map toView selected))
              (Some []))
  | None => None
  end.
Proof.
  unfold createList.
  destruct (GenericDataSelectWithMetrics (ToCells items)) as [cells [cm err]].
  simpl. intros ->. destruct (FromCells cells); reflexivity.
Qed.

(** C3: when the metric promise resolves with an error, [CreateJobList],
    [CreateStatefulSetList] and [CreateDaemonSetList] return the list built
    from the selected cells exactly as without metrics, with
    [CumulativeMetrics] a non-nil empty slice: the metric error neither
    fails the call nor changes the selected items. *)
Theorem create_list_metric_error :
  (forall V gds (toView : BatchJob -> V) items e,
     snd (snd (gds (job.ToCells items))) = Some e ->
     CreateJobList gds toView items =
     option_map (fun selected => mkListView (Z.of_nat (length items))
                                   (Some (map toView selected)) (Some []))
       (job.FromCells (fst (gds (job.ToCells items))))) /\
  (forall V gds (toView : StatefulSet -> V) items e,
     snd (snd (gds (statefulset.ToCells items))) = Some e ->
     CreateStatefulSetList gds toView items =
     option_map (fun selected => mkListView (Z.of_nat (length items))
                                   (Some (map toView selected)) (Some []))
       (statefulset.FromCells (fst (gds (statefulset.ToCells items))))) /\
  (forall V gds (toView : DaemonSet -> V) items e,
     snd (snd (gds (daemonset.ToCells items))) = Some e ->
     CreateDaemonSetList gds toView items =
     option_map (fun selected => mkListView (Z.of_nat (length items))
                                   (Some (map toView selected)) (Some []))
       (daemonset.FromCells (fst (gds (daemonset.ToCells items))))).
Proof.
  split; [|split]; intros V gds toView items e He;
    unfold CreateJobList, CreateStatefulSetList, CreateDaemonSetList;
    rewrite (createList_metric_error _ _ _ _ _ e He); reflexivity.
Qed.

Lemma create_list_metric_error_witness :
  let ss := [mkStatefulSet (mkObjectMeta "db" "default" 0 ∅) 3 3;
             mkStatefulSet (mkObjectMeta "cache" "default" 0 ∅) 1 1] in
  let gds := fun cells : list DataCell =>
               (cells, ((None, Some (OtherError "heapster unavailable"))
                          : MetricResult)) in
  snd (snd (gds (statefulset.ToCells ss))) = Some (OtherError "heapster unavailable") /\
  CreateStatefulSetList gds (fun s => Name (SSObjectMeta s)) ss =
  option_map (fun selected => mkListView (Z.of_nat (length ss))
                                (Some (map (fun s => Name (SSObjectMeta s)) selected))
                                (Some []))
    (statefulset.FromCells (fst (gds (statefulset.ToCells ss)))).
Proof.
  intros ss gds. split; [reflexivity|].
  apply (proj1 (proj2 create_list_metric_error) string gds _ ss
           (OtherError "heapster unavailable")).
  reflexivity.
Defined.

(** ** Correlating jobs with cron jobs *)

Lemma goAppend_default {A} (m : option (list A)) (x : A) :
  default [] (goAppend m [x]) = default [] m ++ [x].
Proof. destruct m; reflexivity. Qed.

Lemma fold_goAppend_filter {A} (f : option (list A) -> A -> option (list A))
    (P : A -> bool) (l : list A) (acc : option (list A)) :
  (forall m x, f m x = if P x then goAppend m [x] else m) ->
  default [] (fold_left f l acc) = default [] acc ++ List.filter P l.
Proof.
  intros Hf. revert acc; induction l as [|x l IH]; intros acc; simpl.
  - rewrite app_nil_r. reflexivity.
  - rewrite IH, Hf. destruct (P x).
    + rewrite goAppend_default, <- app_assoc. reflexivity.
    + reflexivity.
Qed.

(** C6: [FilterJobByAnnotation] returns, in their input order, exactly the
    jobs whose "created-by" annotation decodes to a reference named like
    the cron job and which live in the cron job's namespace; a job whose
    annotation is missing or does not decode is skipped (the function has
    no error result). [FilterJobByAnnotationc] of detail.go computes the
    same. *)
Theorem FilterJobByAnnotation_spec
    (unmarshalSerializedReference : string -> option ObjectReference)
    (cronJob : CronJob) (jobs : list JobView) :
  let result :=
    default [] (FilterJobByAnnotation unmarshalSerializedReference cronJob jobs) in
  result = List.filter
             (fun job =>
                match extractCreatedBy unmarshalSerializedReference
                        (Annotations (JObjectMeta job)) with
                | Some ref =>
                    String.eqb (RefName ref) (Name (CJObjectMeta cronJob)) &&
                    String.eqb (Namespace (CJObjectMeta cronJob))
                      (Namespace (JObjectMeta job))
                | None => false
                end) jobs /\
  (forall job, In job result <->
     In job jobs /\
     exists ref, extractCreatedBy unmarshalSerializedReference
                   (Annotations (JObjectMeta job)) = Some ref /\
                 RefName ref = Name (CJObjectMeta cronJob) /\
                 Namespace (JObjectMeta job) = Namespace (CJObjectMeta cronJob)) /\
  (forall job,
     (Annotations (JObjectMeta job) !! CreatedByAnnotation = None \/
      exists value, Annotations (JObjectMeta job) !! CreatedByAnnotation = Some value /\
                    unmarshalSerializedReference value = None) ->
     ~ In job result) /\
  FilterJobByAnnotationc unmarshalSerializedReference cronJob jobs =
  FilterJobByAnnotation unmarshalSerializedReference cronJob jobs.
Proof.
  intros result.
  assert (Hres : result = List.filter
             (fun job =>
                match extractCreatedBy unmarshalSerializedReference
                        (Annotations (JObjectMeta job)) with
                | Some ref =>
                    String.eqb (RefName ref) (Name (CJObjectMeta cronJob)) &&
                    String.eqb (Namespace (CJObjectMeta cronJob))
                      (Namespace (JObjectMeta job))
                | None => false
                end) jobs).
  { subst result. unfold FilterJobByAnnotation.
    refine (fold_goAppend_filter _ _ jobs None _).
    intros m job. destruct (extractCreatedBy _ _); [|reflexivity].
    destruct (_ && _); reflexivity. }
  assert (Hin : forall job, In job result <->
     In job jobs /\
     exists ref, extractCreatedBy unmarshalSerializedReference
                   (Annotations (JObjectMeta job)) = Some ref /\
                 RefName ref = Name (CJObjectMeta cronJob) /\
                 Namespace (JObjectMeta job) = Namespace (CJObjectMeta cronJob)).
  { intros job. rewrite Hres, filter_In.
    destruct (extractCreatedBy _ _) as [ref|].
    - rewrite andb_true_iff.
      destruct (String.eqb_spec (RefName ref) (Name (CJObjectMeta cronJob)));
      destruct (String.eqb_spec (Namespace (CJObjectMeta cronJob))
                  (Namespace (JObjectMeta job))).
      + split; [intros [H _]; split; [exact H|]; exists ref; auto|].
        intros [H _]; split; [exact H|split; reflexivity].
      + split; [intros [_ [_ Hf]]; discriminate|].
        intros [_ [ref' [Href [_ Hns]]]]. injection Href as <-. congruence.
      + split; [intros [_ [Hf _]]; discriminate|].
        intros [_ [ref' [Href [Hn _]]]]. injection Href as <-. congruence.
      + split; [intros [_ [Hf _]]; discriminate|].
        intros [_ [ref' [Href [Hn _]]]]. injection Href as <-. congruence.
    - split; [intros [_ Hf]; discriminate|].
      intros [_ [ref' [Href _]]]. discriminate. }
  split; [exact Hres|]. split; [exact Hin|]. split.
  - intros job Hmiss Hjob. apply Hin in Hjob as [_ [ref [Href _]]].
    unfold extractCreatedBy in Href.
    destruct Hmiss as [Hnone | [value [Hv Hdec]]].
    + rewrite Hnone in Href. discriminate.
    + rewrite Hv, Hdec in Href. discriminate.
  - reflexivity.
Qed.

Lemma FilterJobByAnnotation_spec_witness :
  let ref := mkObjectReference "CronJob" "default" "pi-cron" in
  let unmarshal := fun v : string =>
    if String.eqb v "pi-cron-ref" then Some ref else None in
  let annotated v := <[CreatedByAnnotation := v]> (∅ : gmap string string) in
  let j1 := mkJobView (mkObjectMeta "pi-1" "default" 0 (annotated "pi-cron-ref"))
              (mkPodInfo 0 0 0 0 0 0 (Some [])) (mkPodList 0 []) in
  let j2 := mkJobView (mkObjectMeta "pi-2" "default" 0 (annotated "{broken"))
              (mkPodInfo 0 0 0 0 0 0 (Some [])) (mkPodList 0 []) in
  let cj := mkCronJob (mkObjectMeta "pi-cron" "default" 0 ∅) in
  default [] (FilterJobByAnnotation unmarshal cj [j1; j2]) = [j1] /\ ~ In j2 [j1].
Proof.
  intros ref unmarshal annotated j1 j2 cj.
  destruct (FilterJobByAnnotation_spec unmarshal cj [j1; j2])
    as (Hres & _ & Hskip & _).
  split.
  - rewrite Hres. reflexivity.
  - assert (H : ~ In j2 (default [] (FilterJobByAnnotation unmarshal cj [j1; j2]))).
    { apply Hskip. right. exists "{broken". split; reflexivity. }
    rewrite Hres in H. exact H.
Defined.

(** ** Data cell properties *)

Lemma compareBy_skip {A} (gp : A -> string -> option ComparableValue)
    (prop : string) (asc : bool) (sb1 sb2 : list (string * bool)) (a b : A) :
  gp a prop = None ->
  compareBy gp (sb1 ++ (prop, asc) :: sb2) a b = compareBy gp (sb1 ++ sb2) a b.
Proof.
  intros Ha. induction sb1 as [|[p d] sb1 IH]; simpl.
  - rewrite Ha. reflexivity.
  - rewrite IH. reflexivity.
Qed.

Lemma insertCell_ext {A} (gp : A -> string -> option ComparableValue)
    (s1 s2 : list (string * bool)) (x : A) (l : list A) :
  (forall a b, compareBy gp s1 a b = compareBy gp s2 a b) ->
  insertCell gp s1 x l = insertCell gp s2 x l.
Proof.
  intros Hext. induction l as [|y l IH]; simpl; [reflexivity|].
  rewrite Hext, IH. reflexivity.
Qed.

Lemma sortCells_ext {A} (gp : A -> string -> option ComparableValue)
    (s1 s2 : list (string * bool)) (l : list A) :
  (forall a b, compareBy gp s1 a b = compareBy gp s2 a b) ->
  sortCells gp s1 l = sortCells gp s2 l.
Proof.
  intros Hext. unfold sortCells.
  generalize (@nil A) as acc. induction l as [|x l IH]; intros acc; simpl;
    [reflexivity|].
  rewrite (insertCell_ext gp s1 s2 x acc Hext). apply IH.
Qed.

Lemma sortCells_nil_keys {A} (gp : A -> string -> option ComparableValue)
    (l : list A) : sortCells gp [] l = l.
Proof.
  unfold sortCells.
  assert (Hins : forall (x : A) acc, insertCell gp [] x acc = acc ++ [x]).
  { intros x acc. induction acc as [|y acc IH]; simpl; [reflexivity|].
    rewrite IH. reflexivity. }
  change l with ([] ++ l) at 2. generalize (@nil A) as acc.
  induction l as [|x l IH]; intros acc; simpl.
  - rewrite app_nil_r. reflexivity.
  - rewrite Hins, IH, <- app_assoc. reflexivity.
Qed.

Lemma sortCells_unknown_keys {A} (gp : A -> string -> option ComparableValue)
    (sortBy : list (string * bool)) (l : list A) :
  Forall (fun sb => forall a, gp a (fst sb) = None) sortBy ->
  sortCells gp sortBy l = l.
Proof.
  intros Hall. rewrite <- (sortCells_nil_keys gp l) at 2.
  apply sortCells_ext. intros a b.
  induction Hall as [|[p d] sb Hp Hall IH]; simpl; [reflexivity|].
  simpl in Hp. rewrite !Hp. exact IH.
Qed.

Lemma pod_GetProperty_unknown (p : Pod) (name : string) :
  name <> NameProperty -> name <> CreationTimestampProperty ->
  name <> NamespaceProperty -> name <> StatusProperty ->
  pod.GetProperty p name = None.
Proof.
  intros H1 H2 H3 H4. unfold pod.GetProperty.
  destruct (String.eqb_spec name NameProperty); [contradiction|].
  destruct (String.eqb_spec name CreationTimestampProperty); [contradiction|].
  destruct (String.eqb_spec name NamespaceProperty); [contradiction|].
  destruct (String.eqb_spec name StatusProperty); [contradiction|].
  reflexivity.
Qed.

Lemma statefulset_GetProperty_unknown (s : StatefulSet) (name : string) :
  name <> NameProperty -> name <> CreationTimestampProperty ->
  name <> NamespaceProperty ->
  statefulset.GetProperty s name = None.
Proof.
  intros H1 H2 H3. unfold statefulset.GetProperty.
  destruct (String.eqb_spec name NameProperty); [contradiction|].
  destruct (String.eqb_spec name CreationTimestampProperty); [contradiction|].
  destruct (String.eqb_spec name NamespaceProperty); [contradiction|].
  reflexivity.
Qed.

(** C7: [PodCell.GetProperty] and [StatefulSetCell.GetProperty] return the
    wrapped resource's name, namespace and creation timestamp (and, for
    pods, its phase as status); for any other property name they return
    nil, which compares equal to itself, so that sorting on unknown
    property names leaves the order unchanged and an unknown key anywhere
    in a multi-key sort has no effect. *)
Theorem GetProperty_spec :
  (forall p : Pod,
     pod.GetProperty p NameProperty =
       Some (StdComparableString (Name (PodObjectMeta p))) /\
     pod.GetProperty p NamespaceProperty =
       Some (StdComparableString (Namespace (PodObjectMeta p))) /\
     pod.GetProperty p CreationTimestampProperty =
       Some (StdComparableTime (CreationTimestamp (PodObjectMeta p))) /\
     pod.GetProperty p StatusProperty =
       Some (StdComparableString (Phase (Status p)))) /\
  (forall s : StatefulSet,
     statefulset.GetProperty s NameProperty =
       Some (StdComparableString (Name (SSObjectMeta s))) /\
     statefulset.GetProperty s NamespaceProperty =
       Some (StdComparableString (Namespace (SSObjectMeta s))) /\
     statefulset.GetProperty s CreationTimestampProperty =
       Some (StdComparableTime (CreationTimestamp (SSObjectMeta s)))) /\
  compareValues None None = Eq /\
  (forall (name : string),
     name <> NameProperty -> name <> CreationTimestampProperty ->
     name <> NamespaceProperty -> name <> StatusProperty ->
     (forall p : Pod, pod.GetProperty p name = None) /\
     (forall asc sb1 sb2 (pods : list Pod),
        sortCells pod.GetProperty (sb1 ++ (name, asc) :: sb2) pods =
        sortCells pod.GetProperty (sb1 ++ sb2) pods) /\
     (forall asc (pods : list Pod),
        sortCells pod.GetProperty [(name, asc)] pods = pods)) /\
  (forall (name : string),
     name <> NameProperty -> name <> CreationTimestampProperty ->
     name <> NamespaceProperty ->
     (forall s : StatefulSet, statefulset.GetProperty s name = None) /\
     (forall asc sb1 sb2 (sets : list StatefulSet),
        sortCells statefulset.GetProperty (sb1 ++ (name, asc) :: sb2) sets =
        sortCells statefulset.GetProperty (sb1 ++ sb2) sets) /\
     (forall asc (sets : list StatefulSet),
        sortCells statefulset.GetProperty [(name, asc)] sets = sets)).
Proof.
  split; [intros p; repeat split; reflexivity|].
  split; [intros s; repeat split; reflexivity|].
  split; [reflexivity|].
  split.
  - intros name H1 H2 H3 H4.
    assert (Hu : forall p, pod.GetProperty p name = None)
      by (intros p; apply pod_GetProperty_unknown; assumption).
    split; [exact Hu|]. split.
    + intros asc sb1 sb2 pods. apply sortCells_ext. intros a b.
      apply compareBy_skip, Hu.
    + intros asc pods. apply sortCells_unknown_keys.
      constructor; [exact Hu | constructor].
  - intros name H1 H2 H3.
    assert (Hu : forall s, statefulset.GetProperty s name = None)
      by (intros s; apply statefulset_GetProperty_unknown; assumption).
    split; [exact Hu|]. split.
    + intros asc sb1 sb2 sets. apply sortCells_ext. intros a b.
      apply compareBy_skip, Hu.
    + intros asc sets. apply sortCells_unknown_keys.
      constructor; [exact Hu | constructor].
Qed.

Lemma GetProperty_spec_witness :
  let p1 := mkPod (mkObjectMeta "web-1" "default" 5 ∅) (mkPodStatus PodRunning []) in
  let p0 := mkPod (mkObjectMeta "web-0" "default" 7 ∅) (mkPodStatus PodPending []) in
  "restarts" <> NameProperty /\ "restarts" <> CreationTimestampProperty /\
  "restarts" <> NamespaceProperty /\ "restarts" <> StatusProperty /\
  sortCells pod.GetProperty [("restarts", true)] [p1; p0] = [p1; p0] /\
  sortCells pod.GetProperty [("restarts", false); (NameProperty, true)] [p1; p0] =
  sortCells pod.GetProperty [(NameProperty, true)] [p1; p0].
Proof.
  intros p1 p0.
  assert (Hn : "restarts" <> NameProperty) by discriminate.
  assert (Hc : "restarts" <> CreationTimestampProperty) by discriminate.
  assert (Hs : "restarts" <> NamespaceProperty) by discriminate.
  assert (Ht : "restarts" <> StatusProperty) by discriminate.
  destruct GetProperty_spec as (_ & _ & _ & Hpod & _).
  destruct (Hpod "restarts" Hn Hc Hs Ht) as (_ & Hskip & Hid).
  split; [exact Hn|]. split; [exact Hc|]. split; [exact Hs|]. split; [exact Ht|].
  split.
  - apply Hid.
  - apply (Hskip false [] [(NameProperty, true)] [p1; p0]).
Defined.

(** ** Cron job aggregation *)

Lemma cronjob_loops_agree (pi : PodInfo) (pods : list PodView) (jobs : list JobView) :
  Forall (fun job => Warnings (JPods job) <> None) jobs ->
  toCronJobLoop pi pods jobs = toCronJobDetailLoop pi pods jobs.
Proof.
  revert pi pods. induction jobs as [|job jobs IH]; intros pi pods Hall;
    [reflexivity|].
  inversion Hall as [|? ? Hj Hrest]; subst. simpl.
  destruct (Warnings (JPods job)) as [w|]; [|contradiction].
  apply IH, Hrest.
Qed.

(** When no job has a nil warning slice, the list view and the detail view
    agree on the pod counters, warnings and pods. *)
Lemma cronjob_views_agree_nonnil_warnings (cronJob : CronJob) (jobs : list JobView) :
  Forall (fun job => Warnings (JPods job) <> None) jobs ->
  CVPods (toCronJob cronJob jobs) = CDPodInfo (toCronJobDetail cronJob jobs) /\
  CVPodList (toCronJob cronJob jobs) = CDPodList (toCronJobDetail cronJob jobs).
Proof.
  intros Hall. unfold toCronJob, toCronJobDetail.
  rewrite (cronjob_loops_agree _ _ _ Hall).
  destruct (toCronJobDetailLoop emptyPodInfo [] jobs) as [pi pods].
  split; reflexivity.
Qed.

(** C9 (the code disagrees): for a job whose [Pods.Warnings] is nil,
    [toCronJob] keeps counting and adds the job's pods, while
    [toCronJobDetail] leaves its loop after adding that job's counters:
    the pod list, [Desired] and the counters of later jobs differ. *)
Theorem cronjob_views_diverge_on_nil_warnings :
  let pv := mkPodView (mkObjectMeta "pi-1-x7k2p" "default" 0 ∅) PodSucceeded in
  let j1 := mkJobView (mkObjectMeta "pi-1" "default" 0 ∅)
              (mkPodInfo 0 0 0 0 0 1 None) (mkPodList 1 [pv]) in
  let j2 := mkJobView (mkObjectMeta "pi-2" "default" 0 ∅)
              (mkPodInfo 1 1 1 0 0 0 (Some [])) (mkPodList 0 []) in
  let cj := mkCronJob (mkObjectMeta "pi" "default" 0 ∅) in
  Pods (CVPodList (toCronJob cj [j1])) = [pv] /\
  Pods (CDPodList (toCronJobDetail cj [j1])) = [] /\
  Desired (CVPods (toCronJob cj [j1])) = 1 /\
  Desired (CDPodInfo (toCronJobDetail cj [j1])) = 0 /\
  Running (CVPods (toCronJob cj [j1; j2])) = 1 /\
  Running (CDPodInfo (toCronJobDetail cj [j1; j2])) = 0.
Proof.
  vm_compute. repeat split.
Qed.

(** ** Fan-in of the category handlers *)

Lemma lookup_In {A} (l : list A) (i : nat) (x : A) :
  l !! i = Some x -> In x l.
Proof.
  revert i. induction l as [|a l IH]; intros [|i] Hi; simpl in Hi;
    try discriminate.
  - injection Hi as ->. left. reflexivity.
  - right. exact (IH i Hi).
Qed.

Lemma map_insert_same {A B} (g : A -> B) (l : list A) (i : nat) (x y : A) :
  l !! i = Some x -> g y = g x -> map g (<[i := y]> l) = map g l.
Proof.
  revert i. induction l as [|a l IH]; intros [|i] Hi Hg; simpl in Hi;
    try discriminate; simpl.
  - injection Hi as ->. rewrite Hg. reflexivity.
  - f_equal. exact (IH i Hi Hg).
Qed.

Lemma Forall_insert_same {A} (P : A -> Prop) (l : list A) (i : nat) (y : A) :
  Forall P l -> P y -> Forall P (<[i := y]> l).
Proof.
  revert i. induction l as [|a l IH]; intros [|i] Hl Hy; simpl; auto.
  - inversion Hl; subst. constructor; assumption.
  - inversion Hl; subst. constructor; [assumption | apply IH; assumption].
Qed.

Ltac inv_step H :=
  repeat match type of H with
  | match ?x with _ => _ end = Some _ =>
      let E := fresh "E" in destruct x eqn:E; try discriminate H
  | Some _ = Some _ => injection H as <-
  end.

(** What a step keeps: the sub-results, that [errChan] only holds errors
    of the sub-results, that a returned error is one of them, and that no
    goroutine has finished while the handler is receiving errors or has
    returned an error. *)
Lemma step_invariant {Item} (agg : Aggregator) (E : list (option GoError))
    (a : Actor) (s s' : FanInState Item) :
  step agg a s = Some s' ->
  map fErr (fetchers s) = E ->
  Forall (fun x => In x E) (errChan s) ->
  (forall e, handler s = Done (ReturnedError e) -> In (Some e) E) ->
  (match handler s with
   | RecvErr _ | Done (ReturnedError _) => True | _ => False end ->
   Forall (fun f => fPC f <> Exited) (fetchers s)) ->
  map fErr (fetchers s') = E /\
  Forall (fun x => In x E) (errChan s') /\
  (forall e, handler s' = Done (ReturnedError e) -> In (Some e) E) /\
  (match handler s' with
   | RecvErr _ | Done (ReturnedError _) => True | _ => False end ->
   Forall (fun f => fPC f <> Exited) (fetchers s')).
Proof.
  intros Hstep HE HQ HD HX.
  destruct a as [i|]; simpl in Hstep.
  - unfold stepGoroutine in Hstep. inv_step Hstep; simpl.
    + (* buffered send of the error *)
      split; [rewrite (map_insert_same _ _ _ f); [exact HE | exact E0 | reflexivity]|].
      split.
      { apply Forall_app. split; [exact HQ|]. constructor; [|constructor].
        rewrite <- HE. apply in_map. exact (lookup_In _ _ _ E0). }
      split; [exact HD|].
      intros Hh. apply Forall_insert_same; [exact (HX Hh) | simpl; discriminate].
    + (* rendezvous on the item channel *)
      split; [rewrite (map_insert_same _ _ _ f); [exact HE | exact E0 | reflexivity]|].
      split; [exact HQ|].
      destruct (fItem f); (split; [intros ? ?; discriminate | intros []]).
  - unfold stepHandler in Hstep. inv_step Hstep; simpl.
    + split; [exact HE|]. inversion HQ as [|? ? Hin HQ']; subst.
      split; [exact HQ'|]. split.
      * intros e' He'. injection He' as <-. exact Hin.
      * intros _. apply HX. exact I.
    + split; [exact HE|]. inversion HQ as [|? ? Hin HQ']; subst.
      split; [exact HQ'|]. split; [intros e' He'; discriminate|].
      intros _. apply HX. exact I.
    + split; [exact HE|]. split; [exact HQ|]. split; [intros e' He'; discriminate|].
      intros [].
    + split; [exact HE|]. split; [exact HQ|]. split; [intros e' He'; discriminate|].
      intros [].
Qed.

Lemma run_invariant {Item} (agg : Aggregator) (E : list (option GoError))
    (sched : list Actor) (s s' : FanInState Item) :
  run agg sched s = Some s' ->
  map fErr (fetchers s) = E ->
  Forall (fun x => In x E) (errChan s) ->
  (forall e, handler s = Done (ReturnedError e) -> In (Some e) E) ->
  (match handler s with
   | RecvErr _ | Done (ReturnedError _) => True | _ => False end ->
   Forall (fun f => fPC f <> Exited) (fetchers s)) ->
  map fErr (fetchers s') = E /\
  Forall (fun x => In x E) (errChan s') /\
  (forall e, handler s' = Done (ReturnedError e) -> In (Some e) E) /\
  (match handler s' with
   | RecvErr _ | Done (ReturnedError _) => True | _ => False end ->
   Forall (fun f => fPC f <> Exited) (fetchers s')).
Proof.
  revert s. induction sched as [|a sched IH]; intros s Hrun HE HQ HD HX; simpl in Hrun.
  - injection Hrun as <-. auto.
  - destruct (step agg a s) as [s1|] eqn:Hs; [|discriminate].
    destruct (step_invariant agg E a s s1 Hs HE HQ HD HX) as (HE1 & HQ1 & HD1 & HX1).
    exact (IH s1 Hrun HE1 HQ1 HD1 HX1).
Qed.

(** Once the handler is done, nothing moves it again. *)
Lemma step_done {Item} (agg : Aggregator) (a : Actor) (s s' : FanInState Item)
    (o : Outcome Item) :
  handler s = Done o -> step agg a s = Some s' -> handler s' = Done o.
Proof.
  intros Hh Hstep. destruct a as [i|]; simpl in Hstep.
  - unfold stepGoroutine in Hstep. inv_step Hstep; simpl; congruence.
  - unfold stepHandler in Hstep. rewrite Hh in Hstep. discriminate.
Qed.

Lemma run_done {Item} (agg : Aggregator) (sched : list Actor)
    (s s' : FanInState Item) (o : Outcome Item) :
  handler s = Done o -> run agg sched s = Some s' -> handler s' = Done o.
Proof.
  revert s. induction sched as [|a sched IH]; intros s Hh Hrun; simpl in Hrun.
  - injection Hrun as <-. exact Hh.
  - destruct (step agg a s) as [s1|] eqn:Hs; [|discriminate].
    exact (IH s1 (step_done agg a s s1 o Hh Hs) Hrun).
Qed.

Lemma initState_invariant {Item} (subs : list (option Item * option GoError)) :
  map fErr (fetchers (initState subs)) = map snd subs /\
  Forall (fun f => fPC f <> Exited) (fetchers (initState subs)).
Proof.
  unfold initState; simpl. induction subs as [|[it e] subs [IH1 IH2]]; simpl.
  - split; [reflexivity | constructor].
  - split; [f_equal; exact IH1|]. constructor; [discriminate | exact IH2].
Qed.

(** When the handler of a fan-in returns an error, that error is the error
    of one of the sub-results, and under every continuation of the
    schedule the handler stays returned while no fetch goroutine ever
    finishes: each is left blocked on its channel sends. *)
Lemma fanin_error_return_leaks {Item} (agg : Aggregator)
    (subs : list (option Item * option GoError)) (sched : list Actor)
    (s : FanInState Item) (e : GoError) :
  run agg sched (initState subs) = Some s ->
  handler s = Done (ReturnedError e) ->
  In (Some e) (map snd subs) /\
  forall sched' s', run agg sched' s = Some s' ->
    handler s' = Done (ReturnedError e) /\
    Forall (fun f => fPC f <> Exited) (fetchers s').
Proof.
  intros Hrun Hh.
  destruct (initState_invariant subs) as [HE0 HX0].
  destruct (run_invariant agg (map snd subs) sched (initState subs) s Hrun HE0
              (List.Forall_nil _) (fun e' H => ltac:(discriminate H)) (fun _ => HX0))
    as (HE & HQ & HD & HX).
  split; [exact (HD e Hh)|].
  intros sched' s' Hrun'.
  assert (Hh' : handler s' = Done (ReturnedError e))
    by exact (run_done agg sched' s s' _ Hh Hrun').
  split; [exact Hh'|].
  destruct (run_invariant agg (map snd subs) sched' s s' Hrun' HE HQ HD HX)
    as (_ & _ & _ & HX').
  apply HX'. rewrite Hh'. exact I.
Qed.

(** C1 (the code disagrees): [GetClusterFromChannels] launches five
    goroutines but receives only [numErrs = 4] errors. When the node fetch
    fails (nil list, non-nil error) and its error is the last one sent, the
    handler reads four nil errors, never sees the node error and goes on to
    the items: it dereferences the nil node list and panics instead of
    returning the error. *)
Theorem cluster_missed_error_panics :
  let subs : list (option Z * option GoError) :=
    [(Some 1, None); (None, Some (OtherError "nodes")); (Some 3, None);
     (Some 4, None); (Some 5, None)] in
  option_map handler
    (run GetClusterFromChannels
       [Goroutine 0; Goroutine 2; Goroutine 3; Goroutine 4;
        Handler; Handler; Handler; Handler; Handler;
        Goroutine 1; Goroutine 0; Goroutine 1] (initState subs))
  = Some (Done Panicked) /\
  (numErrs GetClusterFromChannels < length subs)%nat.
Proof.
  vm_compute. split; [reflexivity | lia].
Qed.

(** C8, counterexample: in [GetClusterFromChannels], when the node fetch
    fails and the namespace fetch succeeds, the handler returns the node
    error, but no fetch goroutine ever finishes afterwards, whatever the
    scheduler does: the successful goroutines stay blocked on their
    unbuffered item channels. *)
Lemma cluster_error_return_leaks_goroutines :
  let subs : list (option Z * option GoError) :=
    [(Some 1, None); (None, Some (OtherError "nodes")); (Some 3, None);
     (Some 4, None); (Some 5, None)] in
  exists s,
    run GetClusterFromChannels [Goroutine 1; Handler] (initState subs) = Some s /\
    handler s = Done (ReturnedError (OtherError "nodes")) /\
    forall sched' s', run GetClusterFromChannels sched' s = Some s' ->
      Forall (fun f => fPC f <> Exited) (fetchers s') /\
      length (fetchers s') = 5%nat.
Proof.
  intros subs. eexists. split; [vm_compute; reflexivity|].
  split; [reflexivity|].
  intros sched' s' Hrun'.
  assert (Hr : run GetClusterFromChannels [Goroutine 1; Handler] (initState subs) =
               Some (mkFanInState
                       (<[1%nat := mkFetcher None (Some (OtherError "nodes")) AtSendItem]>
                          (fetchers (initState subs)))
                       [] (Done (ReturnedError (OtherError "nodes")))))
    by (vm_compute; reflexivity).
  destruct (fanin_error_return_leaks GetClusterFromChannels subs _ _ _ Hr eq_refl)
    as [_ Hleak].
  split; [exact (proj2 (Hleak sched' s' Hrun'))|].
  rewrite <- (length_map fErr (fetchers s')).
  destruct (run_invariant GetClusterFromChannels (map snd subs) sched' _ s' Hrun'
              eq_refl) as [HE _].
  - constructor.
  - intros e He. injection He as <-. right. left. reflexivity.
  - intros _. vm_compute. repeat constructor; discriminate.
  - rewrite HE. reflexivity.
Qed.

(** C8, as the code behaves: when the handler of a category fan-in
    ([GetClusterFromChannels], [GetConfigFromChannels],
    [GetDiscoveryFromChannels]) reads a non-nil error it returns that error
    at once, without deadlock and without any result value; the error is
    the error of one of the fetches. The fetch goroutines are not drained:
    under every continuation none of them ever finishes, each stays blocked
    on its unbuffered item channel (a goroutine leak). *)
Theorem fanin_error_return_amended {Item} (agg : Aggregator)
    (subs : list (option Item * option GoError)) (sched : list Actor)
    (s : FanInState Item) (e : GoError) :
  run agg sched (initState subs) = Some s ->
  handler s = Done (ReturnedError e) ->
  In (Some e) (map snd subs) /\
  forall sched' s', run agg sched' s = Some s' ->
    handler s' = Done (ReturnedError e) /\
    Forall (fun f => fPC f <> Exited) (fetchers s').
Proof.
  exact (fanin_error_return_leaks agg subs sched s e).
Qed.

Lemma fanin_error_return_amended_witness :
  let subs : list (option Z * option GoError) :=
    [(Some 1, None); (None, Some (OtherError "secrets")); (Some 3, None)] in
  exists s,
    run GetConfigFromChannels [Goroutine 0; Goroutine 1; Handler; Handler]
      (initState subs) = Some s /\
    handler s = Done (ReturnedError (OtherError "secrets")) /\
    In (Some (OtherError "secrets")) (map snd subs) /\
    Forall (fun f => fPC f <> Exited)
      (fetchers s).
Proof.
  intros subs.
  assert (H : exists s,
    run GetConfigFromChannels [Goroutine 0; Goroutine 1; Handler; Handler]
      (initState subs) = Some s /\
    handler s = Done (ReturnedError (OtherError "secrets")))
    by (eexists; split; vm_compute; reflexivity).
  destruct H as (s & Hrun & Hh).
  exists s. split; [exact Hrun|]. split; [exact Hh|].
  destruct (fanin_error_return_amended GetConfigFromChannels subs _ s _ Hrun Hh)
    as [Hin Hleak].
  split; [exact Hin|].
  exact (proj2 (Hleak [] s eq_refl)).
Defined.

Lemma filter_insert_count {A} (p : A -> bool) (l : list A) (i : nat) (x y : A) :
  l !! i = Some x ->
  (length (List.filter p (<[i := y]> l)) + (if p x then 1 else 0) =
   length (List.filter p l) + (if p y then 1 else 0))%nat.
Proof.
  revert i. induction l as [|a l IH]; intros [|i] Hi; simpl in Hi;
    try discriminate; simpl.
  - injection Hi as ->. destruct (p x), (p y); simpl; lia.
  - specialize (IH i Hi). destruct (p a); simpl; lia.
Qed.

Lemma filter_length_all {A} (p : A -> bool) (l : list A) :
  length (List.filter p l) = length l -> Forall (fun x => p x = true) l.
Proof.
  induction l as [|a l IH]; simpl; intros H; [constructor|].
  pose proof (List.filter_length_le p l) as Hle.
  destruct (p a) eqn:Ha; simpl in H.
  - constructor; [exact Ha | apply IH; lia].
  - lia.
Qed.

Lemma Forall_lookup_In {A} (P : A -> Prop) (l : list A) (i : nat) (x : A) :
  Forall P l -> l !! i = Some x -> P x.
Proof.
  intros Hall Hi. rewrite List.Forall_forall in Hall. exact (Hall x (lookup_In _ _ _ Hi)).
Qed.

(** Counting invariant of a fan-in whose [numErrs] is the number of its
    goroutines: while the handler receives errors, the [k] nil errors it
    has read and the errors still buffered are those of the goroutines
    that have sent; once it is past the loop, every sub-result had a nil
    error. *)
Lemma step_count_invariant {Item} (agg : Aggregator) (a : Actor)
    (s s' : FanInState Item) :
  numErrs agg = length (fetchers s) ->
  step agg a s = Some s' ->
  errCountInvariant s ->
  length (fetchers s') = length (fetchers s) /\
  errCountInvariant s'.
Proof.
  intros Hn Hstep HJ. unfold errCountInvariant in *.
  destruct a as [i|]; simpl in Hstep.
  - unfold stepGoroutine in Hstep. inv_step Hstep; simpl;
      (split; [apply length_insert|]).
    + (* buffered send of the error *)
      destruct (handler s) as [k|pend acc|[acc|e|]]; try exact I.
      * destruct HJ as [HJ1 HJ2].
        pose proof (filter_insert_count
          (fun f => match fPC f with AtSendErr => false | _ => true end)
          (fetchers s) i f (setPC f AtSendItem) E) as C1.
        pose proof (filter_insert_count
          (fun f => match fPC f, fErr f with
                    | AtSendErr, _ => false | _, None => true | _, Some _ => false end)
          (fetchers s) i f (setPC f AtSendItem) E) as C2.
        cbn beta in C1, C2. rewrite E0 in C1, C2. simpl in C1, C2.
        rewrite length_app, List.filter_app, length_app. simpl.
        destruct (fErr f); simpl in C2 |- *; lia.
      * apply Forall_insert_same; [exact HJ | exact (Forall_lookup_In _ _ _ _ HJ E)].
      * apply Forall_insert_same; [exact HJ | exact (Forall_lookup_In _ _ _ _ HJ E)].
      * apply Forall_insert_same; [exact HJ | exact (Forall_lookup_In _ _ _ _ HJ E)].
    + (* rendezvous on the item channel: the handler is past the loop *)
      simpl in HJ.
      destruct (fItem f);
        (apply Forall_insert_same; [exact HJ | exact (Forall_lookup_In _ _ _ _ HJ E)]).
  - unfold stepHandler in Hstep. inv_step Hstep; simpl; (split; [reflexivity|]).
    + exact I.
    + destruct HJ as [HJ1 HJ2]. simpl in HJ1, HJ2. lia.
    + (* the loop ends after [numErrs] nil errors *)
      destruct HJ as [HJ1 HJ2].
      apply bool_decide_eq_false in E0.
      set (sentNone := fun f : Fetcher Item => match fPC f, fErr f with
                  | AtSendErr, _ => false | _, None => true | _, Some _ => false end)
        in HJ2.
      pose proof (List.filter_length_le sentNone (fetchers s)) as Hle.
      assert (Heq : length (List.filter sentNone (fetchers s)) = length (fetchers s))
        by lia.
      pose proof (filter_length_all _ _ Heq) as Hall.
      refine (Forall_impl _ _ _ Hall _).
      intros f Hf. unfold sentNone in Hf.
      destruct (fPC f), (fErr f); simpl in Hf; congruence.
    + exact HJ.
Qed.

Lemma run_count_invariant {Item} (agg : Aggregator) (sched : list Actor)
    (s s' : FanInState Item) :
  numErrs agg = length (fetchers s) ->
  run agg sched s = Some s' ->
  errCountInvariant s ->
  length (fetchers s') = length (fetchers s) /\ errCountInvariant s'.
Proof.
  revert s. induction sched as [|a sched IH]; intros s Hn Hrun HJ; simpl in Hrun.
  - injection Hrun as <-. split; [reflexivity | exact HJ].
  - destruct (step agg a s) as [s1|] eqn:Hs; [|discriminate].
    destruct (step_count_invariant agg a s s1 Hn Hs HJ) as [Hl1 HJ1].
    destruct (IH s1 ltac:(lia) Hrun HJ1) as [Hl HJ'].
    split; [lia | exact HJ'].
Qed.

Lemma initState_count_invariant {Item} (subs : list (option Item * option GoError)) :
  length (fetchers (initState subs)) = length subs /\
  errCountInvariant (initState subs).
Proof.
  unfold errCountInvariant, initState; simpl.
  induction subs as [|[it e] subs [IH1 [IH2 IH3]]]; simpl.
  - repeat split.
  - repeat split; lia.
Qed.

(** A fan-in whose [numErrs] is its number of goroutines reads every
    error: if one of the fetches fails, the only way the handler can
    finish is by returning one of the fetch errors. *)
Lemma fanin_all_errors_read {Item} (agg : Aggregator)
    (subs : list (option Item * option GoError)) (sched : list Actor)
    (s : FanInState Item) (o : Outcome Item) (e : GoError) :
  numErrs agg = length subs ->
  In (Some e) (map snd subs) ->
  run agg sched (initState subs) = Some s ->
  handler s = Done o ->
  exists e', o = ReturnedError e' /\ In (Some e') (map snd subs).
Proof.
  intros Hn Hin Hrun Hh.
  destruct (initState_count_invariant subs) as [Hl0 HJ0].
  destruct (run_count_invariant agg sched (initState subs) s ltac:(lia) Hrun HJ0) as [_ HJ].
  destruct (initState_invariant subs) as [HE0 HX0].
  destruct (run_invariant agg (map snd subs) sched (initState subs) s Hrun HE0
              (List.Forall_nil _) (fun e' H => ltac:(discriminate H)) (fun _ => HX0))
    as (HE & _ & HD & _).
  unfold errCountInvariant in HJ. rewrite Hh in HJ.
  destruct o as [items|e'|].
  - exfalso. rewrite <- HE in Hin. apply in_map_iff in Hin as (f & Hf & Hinf).
    rewrite List.Forall_forall in HJ. rewrite (HJ f Hinf) in Hf. discriminate.
  - exists e'. split; [reflexivity | exact (HD e' Hh)].
  - exfalso. rewrite <- HE in Hin. apply in_map_iff in Hin as (f & Hf & Hinf).
    rewrite List.Forall_forall in HJ. rewrite (HJ f Hinf) in Hf. discriminate.
Qed.

(** The configuration and discovery handlers, whose [numErrs] matches
    their goroutines, surface a fetch error whenever they finish. *)
Lemma config_discovery_surface_errors :
  (forall (subs : list (option Z * option GoError)) sched s o e,
     length subs = 3%nat -> In (Some e) (map snd subs) ->
     run GetConfigFromChannels sched (initState subs) = Some s ->
     handler s = Done o ->
     exists e', o = ReturnedError e' /\ In (Some e') (map snd subs)) /\
  (forall (subs : list (option Z * option GoError)) sched s o e,
     length subs = 2%nat -> In (Some e) (map snd subs) ->
     run GetDiscoveryFromChannels sched (initState subs) = Some s ->
     handler s = Done o ->
     exists e', o = ReturnedError e' /\ In (Some e') (map snd subs)).
Proof.
  split; intros subs sched s o e Hl Hin Hrun Hh;
    (refine (fanin_all_errors_read _ subs sched s o e _ Hin Hrun Hh); rewrite Hl; reflexivity).
Qed.

Lemma config_discovery_surface_errors_witness :
  let subs : list (option Z * option GoError) :=
    [(Some 1, None); (None, Some (OtherError "secrets")); (Some 3, None)] in
  exists s o,
    run GetConfigFromChannels [Goroutine 0; Goroutine 1; Handler; Handler]
      (initState subs) = Some s /\
    handler s = Done o /\
    exists e', o = ReturnedError e' /\ In (Some e') (map snd subs).
Proof.
  intros subs.
  assert (H : exists s o,
    run GetConfigFromChannels [Goroutine 0; Goroutine 1; Handler; Handler]
      (initState subs) = Some s /\ handler s = Done o)
    by (do 2 eexists; split; vm_compute; reflexivity).
  destruct H as (s & o & Hrun & Hh).
  exists s, o. split; [exact Hrun|]. split; [exact Hh|].
  refine (proj1 config_discovery_surface_errors subs _ s o (OtherError "secrets")
            eq_refl _ Hrun Hh).
  right. left. reflexivity.
Defined.

Lemma cronjob_views_agree_nonnil_warnings_witness :
  let pv := mkPodView (mkObjectMeta "pi-1-x7k2p" "default" 0 ∅) PodSucceeded in
  let j1 := mkJobView (mkObjectMeta "pi-1" "default" 0 ∅)
              (mkPodInfo 0 1 0 0 0 1 (Some [])) (mkPodList 1 [pv]) in
  let j2 := mkJobView (mkObjectMeta "pi-2" "default" 0 ∅)
              (mkPodInfo 1 1 1 0 0 0 (Some [mkEvent "BackOff" "restarting"]))
              (mkPodList 0 []) in
  let cj := mkCronJob (mkObjectMeta "pi" "default" 0 ∅) in
  CVPods (toCronJob cj [j1; j2]) = CDPodInfo (toCronJobDetail cj [j1; j2]) /\
  CVPodList (toCronJob cj [j1; j2]) = CDPodList (toCronJobDetail cj [j1; j2]).
Proof.
  intros pv j1 j2 cj.
  apply cronjob_views_agree_nonnil_warnings.
  repeat constructor; discriminate.
Defined.

(** ** Further list and pod code *)

(** [GetDaemonSetListFromChannels] has no [NotFound] case: any error of
    the daemon set, pod or event list, in that order, is returned with a
    nil list, and only when all three fetches succeed is the list built. *)
Theorem GetDaemonSetListFromChannels_errors {V}
    (ds : ResourceChannel (list DaemonSet)) (pods : ResourceChannel (list Pod))
    (events : ResourceChannel (list Event))
    (create : list DaemonSet -> list Pod -> list Event -> ListView V) :
  let r := GetDaemonSetListFromChannels ds pods events create in
  (forall e, ChanError ds = Some e -> r = (None, Some e)) /\
  (forall e, ChanError ds = None -> ChanError pods = Some e -> r = (None, Some e)) /\
  (forall e, ChanError ds = None -> ChanError pods = None ->
     ChanError events = Some e -> r = (None, Some e)) /\
  (ChanError ds = None -> ChanError pods = None -> ChanError events = None ->
     r = (Some (create (ChanList ds) (ChanList pods) (ChanList events)), None)).
Proof.
  unfold GetDaemonSetListFromChannels.
  repeat split; intros; repeat match goal with H : ChanError _ = _ |- _ => rewrite H end;
    reflexivity.
Qed.

Lemma GetDaemonSetListFromChannels_errors_witness :
  let ds := mkResourceChannel ([] : list DaemonSet) (Some (StatusError "NotFound")) in
  let pods := mkResourceChannel ([] : list Pod) None in
  let events := mkResourceChannel ([] : list Event) None in
  ChanError ds = Some (StatusError "NotFound") /\
  GetDaemonSetListFromChannels ds pods events
    (fun d _ _ => mkListView (Z.of_nat (length d)) (Some d) (Some []))
  = (None, Some (StatusError "NotFound")).
Proof.
  intros ds pods events. split; [reflexivity|].
  exact (proj1 (GetDaemonSetListFromChannels_errors ds pods events _)
           (StatusError "NotFound") eq_refl).
Defined.

Lemma int32_add_1 (z : Z) : 0 <= z -> z + 1 < 2 ^ 31 -> int32_add z 1 = z + 1.
Proof. intros. unfold int32_add. apply int32_wrap_small. lia. Qed.

(** Counting pods by a phase function: each of the four phases gets the
    number of pods mapped to it, any other phase is not counted. *)
Lemma fold_countPhase (f : Pod -> string) (pods : list Pod) (r : PodInfo) :
  0 <= Running r -> 0 <= Pending r -> 0 <= Failed r -> 0 <= Succeeded r ->
  Running r + Z.of_nat (length pods) < 2 ^ 31 ->
  Pending r + Z.of_nat (length pods) < 2 ^ 31 ->
  Failed r + Z.of_nat (length pods) < 2 ^ 31 ->
  Succeeded r + Z.of_nat (length pods) < 2 ^ 31 ->
  fold_left (fun r pod => countPhase r (f pod)) pods r =
  mkPodInfo (Current r) (Desired r)
    (Running r + Z.of_nat (length (List.filter (fun p => String.eqb (f p) PodRunning) pods)))
    (Pending r + Z.of_nat (length (List.filter (fun p => String.eqb (f p) PodPending) pods)))
    (Failed r + Z.of_nat (length (List.filter (fun p => String.eqb (f p) PodFailed) pods)))
    (Succeeded r + Z.of_nat (length (List.filter (fun p => String.eqb (f p) PodSucceeded) pods)))
    (Warnings r).
Proof.
  revert r. induction pods as [|p pods IH]; intros r H1 H2 H3 H4 B1 B2 B3 B4.
  - simpl. rewrite !Z.add_0_r. destruct r; reflexivity.
  - simpl length in B1, B2, B3, B4. cbn [fold_left List.filter].
    destruct (String.eqb_spec (f p) PodRunning) as [E|N1].
    { assert (Hc : countPhase r (f p) =
        mkPodInfo (Current r) (Desired r) (Running r + 1) (Pending r) (Failed r)
          (Succeeded r) (Warnings r))
        by (rewrite E; unfold countPhase; simpl; rewrite int32_add_1 by lia; reflexivity).
      rewrite Hc, IH by (simpl; lia). try rewrite E. simpl. f_equal; lia. }
    destruct (String.eqb_spec (f p) PodPending) as [E|N2].
    { assert (Hc : countPhase r (f p) =
        mkPodInfo (Current r) (Desired r) (Running r) (Pending r + 1) (Failed r)
          (Succeeded r) (Warnings r))
        by (rewrite E; unfold countPhase; simpl; rewrite int32_add_1 by lia; reflexivity).
      rewrite Hc, IH by (simpl; lia). try rewrite E. simpl. f_equal; lia. }
    destruct (String.eqb_spec (f p) PodFailed) as [E|N3].
    { assert (Hc : countPhase r (f p) =
        mkPodInfo (Current r) (Desired r) (Running r) (Pending r) (Failed r + 1)
          (Succeeded r) (Warnings r))
        by (rewrite E; unfold countPhase; simpl; rewrite int32_add_1 by lia; reflexivity).
      rewrite Hc, IH by (simpl; lia). try rewrite E. simpl. f_equal; lia. }
    destruct (String.eqb_spec (f p) PodSucceeded) as [E|N4].
    { assert (Hc : countPhase r (f p) =
        mkPodInfo (Current r) (Desired r) (Running r) (Pending r) (Failed r)
          (Succeeded r + 1) (Warnings r))
        by (rewrite E; unfold countPhase; simpl; rewrite int32_add_1 by lia; reflexivity).
      rewrite Hc, IH by (simpl; lia). try rewrite E. simpl. f_equal; lia. }
    apply String.eqb_neq in N1, N2, N3, N4.
    assert (Hc : countPhase r (f p) = r)
      by (unfold countPhase; rewrite N1, N2, N3, N4; reflexivity).
    rewrite Hc, IH by lia. reflexivity.
Qed.

(** [GetPodInfo] passes [current] and [desired] through, has a non-nil
    empty [Warnings], and counts in each of its four counters the pods in
    that phase; a pod in any other phase (such as [Unknown]) is counted
    nowhere. This holds for fewer than [2^31] pods, below the [int32]
    bound of the counters. *)
Theorem GetPodInfo_counts (current desired : Z) (pods : list Pod) :
  Z.of_nat (length pods) < 2 ^ 31 ->
  let r := GetPodInfo current desired pods in
  let count phase :=
    Z.of_nat (length (List.filter (fun p => String.eqb (Phase (Status p)) phase) pods)) in
  Current r = current /\ Desired r = desired /\ Warnings r = Some [] /\
  Running r = count PodRunning /\ Pending r = count PodPending /\
  Failed r = count PodFailed /\ Succeeded r = count PodSucceeded.
Proof.
  intros Hlen. unfold GetPodInfo.
  rewrite (fold_countPhase (fun pod => Phase (Status pod))) by (simpl; lia).
  simpl. repeat split.
Qed.

Lemma GetPodInfo_counts_witness :
  let pods := [mkPod (mkObjectMeta "web-0" "default" 0 ∅) (mkPodStatus PodRunning []);
               mkPod (mkObjectMeta "web-1" "default" 0 ∅) (mkPodStatus "Unknown" []);
               mkPod (mkObjectMeta "web-2" "default" 0 ∅) (mkPodStatus PodRunning [])] in
  Z.of_nat (length pods) < 2 ^ 31 /\
  Running (GetPodInfo 3 3 pods) = 2 /\
  Running (GetPodInfo 3 3 pods) + Pending (GetPodInfo 3 3 pods) +
  Failed (GetPodInfo 3 3 pods) + Succeeded (GetPodInfo 3 3 pods) = 2.
Proof.
  intros pods.
  assert (Hlen : Z.of_nat (length pods) < 2 ^ 31) by (simpl; lia).
  destruct (GetPodInfo_counts 3 3 pods Hlen) as (_ & _ & _ & HR & HP & HF & HS).
  split; [exact Hlen|]. rewrite HR, HP, HF, HS. split; reflexivity.
Defined.

(** The pod package's [GetPodPhaseStatus] computes the same phase as
    [common.getPodPhaseStatus], and [getPodStatusStatus] is that phase
    rendered as a string: a [Failed] phase is "failed", a [Pending] phase
    "pending", and a [Running] or [Succeeded] phase "success". *)
Theorem pod_status_string_of_phase (pod : Pod) (warnings : list Event) :
  GetPodPhaseStatus pod warnings = getPodPhaseStatus pod warnings /\
  getPodStatusStatus pod warnings =
    (let phase := getPodPhaseStatus pod warnings in
     if String.eqb phase PodFailed then "failed"
     else if String.eqb phase PodPending then "pending"
     else "success").
Proof.
  unfold GetPodPhaseStatus, getPodPhaseStatus, getPodStatusStatus.
  split; [reflexivity|].
  destruct (String.eqb (Phase (Status pod)) PodFailed); [reflexivity|].
  destruct (String.eqb (Phase (Status pod)) PodSucceeded); [reflexivity|].
  destruct (readyInitialized (Conditions (Status pod))) as [ready initialized].
  destruct (initialized && ready); [reflexivity|].
  destruct (bool_decide (0 < length warnings)%nat); reflexivity.
Qed.

(** ** Cron job views *)

Lemma int32_add_wrap (a b : Z) : int32_add a (int32_wrap b) = int32_wrap (b + a).
Proof. unfold int32_add. rewrite Z.add_comm. apply int32_wrap_add_l. Qed.

(** The loop of [toCronJob] in closed form: the [int32] sums of the jobs'
    counters (with [Succeeded] summed into [Current]), the concatenated
    non-nil warnings and the concatenated pods. *)
Lemma toCronJobLoop_spec (jobs : list JobView) :
  forall (pi : PodInfo) (pods : list PodView) (c d ru pe fa : Z) (w : list Event),
  Current pi = int32_wrap c -> Desired pi = int32_wrap d ->
  Running pi = int32_wrap ru -> Pending pi = int32_wrap pe ->
  Failed pi = int32_wrap fa -> Warnings pi = Some w ->
  toCronJobLoop pi pods jobs =
  (mkPodInfo
     (int32_wrap (c + fold_right Z.add 0 (map (fun j => Succeeded (JPods j)) jobs)))
     (int32_wrap (d + fold_right Z.add 0 (map (fun j => Desired (JPods j)) jobs)))
     (int32_wrap (ru + fold_right Z.add 0 (map (fun j => Running (JPods j)) jobs)))
     (int32_wrap (pe + fold_right Z.add 0 (map (fun j => Pending (JPods j)) jobs)))
     (int32_wrap (fa + fold_right Z.add 0 (map (fun j => Failed (JPods j)) jobs)))
     (Succeeded pi)
     (Some (w ++ concat (map (fun j => default [] (Warnings (JPods j))) jobs))),
   pods ++ concat (map (fun j => Pods (JPodList j)) jobs)).
Proof.
  induction jobs as [|job jobs IH];
    intros pi pods c d ru pe fa w Hc Hd Hr Hp Hf Hw; cbn [toCronJobLoop].
  - destruct pi; simpl in *; subst. rewrite !Z.add_0_r, !app_nil_r. reflexivity.
  - destruct (Warnings (JPods job)) as [wj|] eqn:Hwj.
    + rewrite (IH _ _ (c + Succeeded (JPods job)) (d + Desired (JPods job))
                 (ru + Running (JPods job)) (pe + Pending (JPods job))
                 (fa + Failed (JPods job)) (w ++ wj));
        simpl; rewrite ?Hc, ?Hd, ?Hr, ?Hp, ?Hf, ?Hw, ?int32_add_wrap; try reflexivity.
      rewrite Hwj. simpl. rewrite <- !app_assoc, <- !Z.add_assoc. reflexivity.
    + rewrite (IH _ _ (c + Succeeded (JPods job)) (d + Desired (JPods job))
                 (ru + Running (JPods job)) (pe + Pending (JPods job))
                 (fa + Failed (JPods job)) w);
        simpl; rewrite ?Hc, ?Hd, ?Hr, ?Hp, ?Hf, ?Hw, ?int32_add_wrap; try reflexivity.
      rewrite Hwj. simpl. rewrite <- !app_assoc, <- !Z.add_assoc. reflexivity.
Qed.

(** [toCronJob] gives the cron job the concatenated pods of its jobs (with
    [TotalItems] their number) and their concatenated non-nil warnings. Its
    [Running], [Pending] and [Failed] are the [int32] sums of the jobs'
    counters. [Current] is the sum of the jobs' [Succeeded] counters, and
    its own [Succeeded] stays 0. [Desired] is the larger of the jobs'
    summed [Desired] and the number of pods. *)
Theorem toCronJob_aggregates (cronJob : CronJob) (jobs : list JobView) :
  let v := toCronJob cronJob jobs in
  let pods := concat (map (fun j => Pods (JPodList j)) jobs) in
  let sum (field : PodInfo -> Z) :=
    int32_wrap (fold_right Z.add 0 (map (fun j => field (JPods j)) jobs)) in
  Pods (CVPodList v) = pods /\
  PLTotalItems (CVPodList v) = Z.of_nat (length pods) /\
  Current (CVPods v) = sum Succeeded /\
  Running (CVPods v) = sum Running /\
  Pending (CVPods v) = sum Pending /\
  Failed (CVPods v) = sum Failed /\
  Succeeded (CVPods v) = 0 /\
  Desired (CVPods v) = Z.max (sum Desired) (int32_wrap (Z.of_nat (length pods))) /\
  Warnings (CVPods v) =
    Some (concat (map (fun j => default [] (Warnings (JPods j))) jobs)).
Proof.
  unfold toCronJob.
  rewrite (toCronJobLoop_spec jobs emptyPodInfo [] 0 0 0 0 0 []) by reflexivity.
  cbv zeta. rewrite !Z.add_0_l. simpl app.
  match goal with |- context [if ?b then _ else _] => destruct b eqn:Hlt end;
    simpl; repeat split.
  - simpl in Hlt. apply Z.ltb_lt in Hlt. lia.
  - simpl in Hlt. apply Z.ltb_ge in Hlt. lia.
Qed.

(** The loop of [toCronJobDetail] runs like the loop of [toCronJob] over
    jobs whose warnings are non-nil. *)
Lemma toCronJobDetailLoop_app (pre rest : list JobView) (pi : PodInfo)
    (pods : list PodView) :
  Forall (fun job => Warnings (JPods job) <> None) pre ->
  toCronJobDetailLoop pi pods (pre ++ rest) =
  toCronJobDetailLoop (fst (toCronJobLoop pi pods pre))
    (snd (toCronJobLoop pi pods pre)) rest.
Proof.
  revert pi pods. induction pre as [|job pre IH]; intros pi pods Hall; [reflexivity|].
  inversion Hall as [|? ? Hj Hrest]; subst. simpl.
  destruct (Warnings (JPods job)) as [w|]; [|contradiction].
  apply IH, Hrest.
Qed.

Lemma fold_right_add_init (a : Z) (l : list Z) :
  fold_right Z.add a l = a + fold_right Z.add 0 l.
Proof. induction l as [|x l IH]; simpl; [lia | rewrite IH; lia]. Qed.

(** [toCronJobDetail] stops at the first job whose warnings are nil: its
    pod list holds the pods of the jobs before that one only, while its
    counters also include that job's; later jobs count for nothing. *)
Theorem toCronJobDetail_stops_at_nil_warnings (cronJob : CronJob)
    (pre : list JobView) (job : JobView) (post : list JobView) :
  Forall (fun j => Warnings (JPods j) <> None) pre ->
  Warnings (JPods job) = None ->
  let d := toCronJobDetail cronJob (pre ++ job :: post) in
  let sum (field : PodInfo -> Z) :=
    int32_wrap (fold_right Z.add 0 (map (fun j => field (JPods j)) (pre ++ [job]))) in
  Pods (CDPodList d) = concat (map (fun j => Pods (JPodList j)) pre) /\
  Running (CDPodInfo d) = sum Running /\
  Pending (CDPodInfo d) = sum Pending /\
  Failed (CDPodInfo d) = sum Failed /\
  Current (CDPodInfo d) = sum Succeeded /\
  Warnings (CDPodInfo d) =
    Some (concat (map (fun j => default [] (Warnings (JPods j))) pre)).
Proof.
  intros Hpre Hjob. unfold toCronJobDetail.
  rewrite (toCronJobDetailLoop_app pre (job :: post)) by exact Hpre.
  rewrite (toCronJobLoop_spec pre emptyPodInfo [] 0 0 0 0 0 []) by reflexivity.
  cbn [fst snd toCronJobDetailLoop]. rewrite Hjob.
  rewrite !map_app, !fold_right_app. cbn [map fold_right].
  rewrite !Z.add_0_l, !Z.add_0_r. simpl app.
  match goal with |- context [if ?b then _ else _] => destruct b end;
    cbn; rewrite ?int32_add_wrap; repeat split;
    match goal with
    | |- context [fold_right Z.add (?f (JPods job)) ?l] =>
        rewrite (fold_right_add_init (f (JPods job)) l)
    end; f_equal; lia.
Qed.

Lemma toCronJobDetail_stops_at_nil_warnings_witness :
  let pv0 := mkPodView (mkObjectMeta "pi-0-a" "default" 0 ∅) PodSucceeded in
  let pv1 := mkPodView (mkObjectMeta "pi-1-b" "default" 0 ∅) PodSucceeded in
  let j0 := mkJobView (mkObjectMeta "pi-0" "default" 0 ∅)
              (mkPodInfo 1 1 0 0 0 1 (Some [])) (mkPodList 1 [pv0]) in
  let j1 := mkJobView (mkObjectMeta "pi-1" "default" 0 ∅)
              (mkPodInfo 1 1 1 0 0 0 None) (mkPodList 1 [pv1]) in
  let cj := mkCronJob (mkObjectMeta "pi" "default" 0 ∅) in
  Forall (fun j => Warnings (JPods j) <> None) [j0] /\
  Warnings (JPods j1) = None /\
  Pods (CDPodList (toCronJobDetail cj ([j0] ++ j1 :: []))) = [pv0] /\
  Running (CDPodInfo (toCronJobDetail cj ([j0] ++ j1 :: []))) = 1.
Proof.
  intros pv0 pv1 j0 j1 cj.
  assert (H0 : Forall (fun j => Warnings (JPods j) <> None) [j0])
    by (repeat constructor; discriminate).
  destruct (toCronJobDetail_stops_at_nil_warnings cj [j0] j1 [] H0 eq_refl)
    as (Hp & Hr & _).
  split; [exact H0|]. split; [reflexivity|].
  rewrite Hp, Hr. split; reflexivity.
Defined.

(** The list of cron jobs has one entry per cron job, in input order, and
    never a nil [Items]; each entry is [toCronJob] of the cron job and of
    the jobs created by it (created-by reference naming it, same
    namespace), in their input order. [TotalItems] is the number of cron
    jobs and [CumulativeMetrics] is an empty, non-nil slice. *)
Theorem toCronJobList_entries
    (unmarshalSerializedReference : string -> option ObjectReference)
    (cronJobs : list CronJob) (jobs : list JobView) :
  let l := toCronJobList unmarshalSerializedReference cronJobs jobs in
  let createdBy (cronJob : CronJob) (job : JobView) :=
    match extractCreatedBy unmarshalSerializedReference
            (Annotations (JObjectMeta job)) with
    | Some ref =>
        String.eqb (RefName ref) (Name (CJObjectMeta cronJob)) &&
        String.eqb (Namespace (CJObjectMeta cronJob)) (Namespace (JObjectMeta job))
    | None => false
    end in
  TotalItems l = Z.of_nat (length cronJobs) /\
  CumulativeMetrics l = Some [] /\
  Items l = Some (map (fun cronJob =>
                         toCronJob cronJob (List.filter (createdBy cronJob) jobs))
                      cronJobs).
Proof.
  intros l createdBy. subst l. unfold toCronJobList. cbn [TotalItems CumulativeMetrics Items].
  split; [reflexivity|]. split; [reflexivity|].
  assert (Hm : forall cronJob,
    default [] (FilterJobByAnnotation unmarshalSerializedReference cronJob jobs) =
    List.filter (createdBy cronJob) jobs).
  { intros cronJob. unfold FilterJobByAnnotation.
    refine (fold_goAppend_filter _ _ jobs None _).
    intros m job. subst createdBy. cbv beta.
    destruct (extractCreatedBy _ _); [|reflexivity].
    destruct (_ && _); reflexivity. }
  assert (Hl : forall acc, fold_left
      (fun acc cronJob =>
         goAppend acc [toCronJob cronJob
           (default [] (FilterJobByAnnotation unmarshalSerializedReference cronJob jobs))])
      cronJobs (Some acc) =
    Some (acc ++ map (fun cronJob =>
                        toCronJob cronJob (List.filter (createdBy cronJob) jobs))
                     cronJobs)).
  { induction cronJobs as [|cj cronJobs IH]; intros acc; simpl.
    - rewrite app_nil_r. reflexivity.
    - rewrite IH, Hm, <- app_assoc. reflexivity. }
  exact (Hl []).
Qed.

(** ** Heapster data points *)

Lemma int64_wrap_uint64 (v : Z) :
  0 <= v < 2 ^ 64 ->
  int64_wrap v = if v <? 2 ^ 63 then v else v - 2 ^ 64.
Proof.
  intros Hv. unfold int64_wrap.
  destruct (Z.ltb_spec v (2 ^ 63)).
  - rewrite Z.mod_small by lia. lia.
  - rewrite <- (Z.mod_unique (v + 2 ^ 63) (2 ^ 64) 1 (v + 2 ^ 63 - 2 ^ 64))
      by lia.
    lia.
Qed.

Lemma fold_goAppend_map {A B} (h : A -> B) (l : list A) (acc : list B) :
  fold_left (fun acc x => goAppend acc [h x]) l (Some acc) = Some (acc ++ map h l).
Proof.
  revert acc. induction l as [|x l IH]; intros acc; simpl.
  - rewrite app_nil_r. reflexivity.
  - rewrite IH, <- app_assoc. reflexivity.
Qed.

(** For heapster values in the [uint64] range, [DataPointsFromMetricJSONFormat]
    keeps one point per metric, in order, with the metric's timestamp as X;
    Y is the value when it fits in an [int64] and 0 when the conversion to
    [int64] makes it negative. The result is a non-nil slice, also for no
    metrics. *)
Theorem DataPointsFromMetricJSONFormat_spec (metrics : list MetricPoint) :
  Forall (fun m => 0 <= Value m < 2 ^ 64) metrics ->
  DataPointsFromMetricJSONFormat metrics =
  Some (map (fun m => mkDataPoint (Timestamp m)
                        (if Value m <? 2 ^ 63 then Value m else 0)) metrics).
Proof.
  intros Hall. unfold DataPointsFromMetricJSONFormat.
  rewrite (fold_goAppend_map _ metrics []). f_equal.
  apply map_ext_Forall. eapply Forall_impl; [exact Hall|].
  intros m Hm. cbv beta in Hm |- *. rewrite (int64_wrap_uint64 _ Hm). cbn [X Y].
  destruct (Z.ltb_spec (Value m) (2 ^ 63)).
  - destruct (Z.ltb_spec (Value m) 0); [lia|reflexivity].
  - destruct (Z.ltb_spec (Value m - 2 ^ 64) 0); [reflexivity|lia].
Qed.

Lemma DataPointsFromMetricJSONFormat_spec_witness :
  let ms := [mkMetricPoint 10 5; mkMetricPoint 20 (2 ^ 63)] in
  Forall (fun m => 0 <= Value m < 2 ^ 64) ms /\
  DataPointsFromMetricJSONFormat ms = Some [mkDataPoint 10 5; mkDataPoint 20 0].
Proof.
  intros ms.
  assert (H : Forall (fun m => 0 <= Value m < 2 ^ 64) ms)
    by (repeat constructor; simpl; lia).
  split; [exact H|].
  rewrite (DataPointsFromMetricJSONFormat_spec ms H). reflexivity.
Defined.

(** ** Request parsing and the CSRF filter *)

Lemma Split_not_nil (s : string) (c : Ascii.ascii) : Split s c <> [].
Proof.
  destruct s as [|a rest]; simpl; [discriminate|].
  destruct (Ascii.eqb a c); [discriminate|].
  destruct (Split rest c); discriminate.
Qed.

Lemma Split_length (s : string) (c : Ascii.ascii) :
  length (Split s c) =
  S (length (List.filter (fun a => Ascii.eqb a c) (String.list_ascii_of_string s))).
Proof.
  induction s as [|a rest IH]; simpl; [reflexivity|].
  destruct (Ascii.eqb a c); simpl; [rewrite IH; reflexivity|].
  pose proof (Split_not_nil rest c) as Hn.
  destruct (Split rest c) as [|p ps]; [contradiction|]. exact IH.
Qed.

Lemma string_append_empty_r (s : string) : String.append s EmptyString = s.
Proof. induction s as [|a s IH]; [reflexivity|]. change (String a (String.append s EmptyString) = String a s). rewrite IH. reflexivity. Qed.

Lemma Split_prefix (a rest : string) (c : Ascii.ascii) :
  ~ In c (String.list_ascii_of_string a) ->
  Split (String.append a rest) c =
  match Split rest c with
  | p :: ps => String.append a p :: ps
  | [] => [a]
  end.
Proof.
  intros Ha. induction a as [|x a IH].
  - change (String.append EmptyString rest) with rest.
    pose proof (Split_not_nil rest c) as Hn.
    destruct (Split rest c); [contradiction|reflexivity].
  - change (String.append (String x a) rest) with (String x (String.append a rest)).
    simpl in Ha |- *.
    assert (Hx : Ascii.eqb x c = false)
      by (apply Ascii.eqb_neq; intros ->; apply Ha; left; reflexivity).
    rewrite Hx, IH by (intros H; apply Ha; right; exact H).
    pose proof (Split_not_nil rest c) as Hn.
    destruct (Split rest c); [contradiction|reflexivity].
Qed.

Lemma Split_sep (a rest : string) (c : Ascii.ascii) :
  ~ In c (String.list_ascii_of_string a) ->
  Split (String.append a (String c rest)) c = a :: Split rest c.
Proof.
  intros Ha. rewrite (Split_prefix a (String c rest) c Ha). simpl.
  rewrite Ascii.eqb_refl, string_append_empty_r. reflexivity.
Qed.

Lemma Split_no_sep (a : string) (c : Ascii.ascii) :
  ~ In c (String.list_ascii_of_string a) -> Split a c = [a].
Proof.
  intros Ha. rewrite <- (string_append_empty_r a) at 1.
  rewrite (Split_prefix a EmptyString c Ha). simpl.
  rewrite string_append_empty_r. reflexivity.
Qed.

(** [mapUrlToResource] answers by the number of slashes in the path: with
    fewer than two it returns nil, and with exactly two (a path like
    "/api/v1") it indexes [parts[3]] of a three-element slice and panics. *)
Theorem mapUrlToResource_by_slashes (url : string) :
  let slashes :=
    length (List.filter (fun a => Ascii.eqb a "/"%char) (String.list_ascii_of_string url)) in
  ((slashes < 2)%nat -> mapUrlToResource url = ResourceNil) /\
  (slashes = 2%nat -> mapUrlToResource url = IndexOutOfRange).
Proof.
  intros slashes. unfold mapUrlToResource.
  pose proof (Split_length url "/"%char) as Hl. fold slashes in Hl.
  split; intros Hs.
  - rewrite bool_decide_true by lia. reflexivity.
  - rewrite bool_decide_false by lia.
    rewrite lookup_ge_None_2 by lia. reflexivity.
Qed.

Lemma mapUrlToResource_by_slashes_witness :
  mapUrlToResource "/api" = ResourceNil /\
  mapUrlToResource "/api/v1" = IndexOutOfRange.
Proof.
  split.
  - apply (proj1 (mapUrlToResource_by_slashes "/api")). vm_compute. lia.
  - apply (proj2 (mapUrlToResource_by_slashes "/api/v1")). reflexivity.
Defined.

(** On a path [a/b/c/r] followed by nothing or by a slash and more, where
    the segments [a], [b], [c] and [r] hold no slash, [mapUrlToResource]
    returns the fourth segment [r] (for "/api/v1/<resource>/..." the
    resource). *)
Theorem mapUrlToResource_fourth_segment (a b c r tail : string) :
  ~ In "/"%char (String.list_ascii_of_string a) ->
  ~ In "/"%char (String.list_ascii_of_string b) ->
  ~ In "/"%char (String.list_ascii_of_string c) ->
  ~ In "/"%char (String.list_ascii_of_string r) ->
  (tail = EmptyString \/ exists t, tail = String "/"%char t) ->
  mapUrlToResource
    (String.append a (String "/"%char (String.append b (String "/"%char
      (String.append c (String "/"%char (String.append r tail))))))) =
  ResourceOf r.
Proof.
  intros Ha Hb Hc Hr Ht. unfold mapUrlToResource.
  rewrite (Split_sep a _ _ Ha), (Split_sep b _ _ Hb), (Split_sep c _ _ Hc).
  assert (Hrt : exists ps, Split (String.append r tail) "/"%char = r :: ps).
  { destruct Ht as [-> | [t ->]].
    - exists []. rewrite string_append_empty_r. apply Split_no_sep, Hr.
    - exists (Split t "/"%char). apply Split_sep, Hr. }
  destruct Hrt as [ps ->]. reflexivity.
Qed.

Lemma mapUrlToResource_fourth_segment_witness :
  mapUrlToResource "/api/v1/pod/default" = ResourceOf "pod".
Proof.
  apply (mapUrlToResource_fourth_segment "" "api" "v1" "pod" "/default");
    try (simpl; intuition discriminate).
  right. exists "default". reflexivity.
Defined.

(** [shouldDoCsrfValidation] returns false on every request, so the filter
    of [xsrfValidation] never checks the [X-CSRF-TOKEN] header: whatever the
    token validation says, a request is refused only when
    [mapUrlToResource] gives nil, passed on whenever it gives a resource,
    and the filter panics where [mapUrlToResource] does. *)
Theorem xsrfValidation_ignores_token
    (xsrftokenValid : string -> string -> string -> string -> bool)
    (csrfKey method routePath csrfToken : string) :
  shouldDoCsrfValidation method routePath = false /\
  xsrfValidation xsrftokenValid csrfKey method routePath csrfToken =
  match mapUrlToResource routePath with
  | ResourceNil => Unauthorized
  | ResourceOf _ => Processed
  | IndexOutOfRange => FilterPanic
  end.
Proof.
  assert (Hs : shouldDoCsrfValidation method routePath = false).
  { unfold shouldDoCsrfValidation.
    destruct (negb _); [reflexivity|].
    destruct (String.prefix _ _); reflexivity. }
  split; [exact Hs|].
  unfold xsrfValidation. rewrite Hs. reflexivity.
Qed.

Lemma goAppend_app {A} (acc : option (list A)) (y : A) (ys : list A) :
  goAppend (goAppend acc [y]) ys = goAppend acc (y :: ys).
Proof. destruct acc as [l|]; simpl; [rewrite <- app_assoc|]; reflexivity. Qed.

Lemma fold_goAppend_filter_map {A B} (f : option (list B) -> A -> option (list B))
    (P : A -> bool) (h : A -> B) (l : list A) (acc : option (list B)) :
  (forall m x, f m x = if P x then goAppend m [h x] else m) ->
  fold_left f l acc = goAppend acc (map h (List.filter P l)).
Proof.
  intros Hf. revert acc. induction l as [|x l IH]; intros acc; simpl.
  - destruct acc as [l|]; simpl; [rewrite app_nil_r|]; reflexivity.
  - rewrite IH, Hf. destruct (P x); simpl; [apply goAppend_app|reflexivity].
Qed.

Lemma TrimLeftSpace_sub (s : string) (x : Ascii.ascii) :
  In x (String.list_ascii_of_string (TrimLeftSpace s)) ->
  In x (String.list_ascii_of_string s).
Proof.
  induction s as [|a s IH]; simpl; [tauto|].
  destruct (Ascii.eqb a " "%char); simpl; [intros H; right; apply IH, H|tauto].
Qed.

Lemma TrimLeftSpace_head (s : string) :
  head (String.list_ascii_of_string (TrimLeftSpace s)) <> Some " "%char.
Proof.
  induction s as [|a s IH]; simpl; [discriminate|].
  destruct (Ascii.eqb a " "%char) eqn:E; [exact IH|].
  simpl. intros [= Ha]. subst a. discriminate.
Qed.

Lemma TrimLeftSpace_id (s : string) :
  head (String.list_ascii_of_string s) <> Some " "%char -> TrimLeftSpace s = s.
Proof.
  destruct s as [|a s]; simpl; [reflexivity|]. intros Ha.
  destruct (Ascii.eqb_spec a " "%char); [subst; contradiction|reflexivity].
Qed.

Lemma TrimRightSpace_sub (s : string) (x : Ascii.ascii) :
  In x (String.list_ascii_of_string (TrimRightSpace s)) ->
  In x (String.list_ascii_of_string s).
Proof.
  induction s as [|a s IH]; simpl; [tauto|].
  destruct (TrimRightSpace s) as [|b r] eqn:E.
  - destruct (Ascii.eqb a " "%char); simpl; tauto.
  - simpl. intros [H|H]; [left; exact H|right; apply IH; exact H].
Qed.

Lemma TrimRightSpace_head (s : string) :
  TrimRightSpace s = EmptyString \/
  head (String.list_ascii_of_string (TrimRightSpace s)) =
  head (String.list_ascii_of_string s).
Proof.
  destruct s as [|a s]; simpl; [left; reflexivity|].
  destruct (TrimRightSpace s) as [|b r].
  - destruct (Ascii.eqb a " "%char); [left|right]; reflexivity.
  - right. reflexivity.
Qed.

Lemma TrimRightSpace_last (s : string) :
  last (String.list_ascii_of_string (TrimRightSpace s)) <> Some " "%char.
Proof.
  induction s as [|a s IH]; simpl; [discriminate|].
  destruct (TrimRightSpace s) as [|b r] eqn:E.
  - destruct (Ascii.eqb_spec a " "%char); simpl; [discriminate|].
    intros [= Ha]. contradiction.
  - exact IH.
Qed.

Lemma TrimRightSpace_id (s : string) :
  last (String.list_ascii_of_string s) <> Some " "%char -> TrimRightSpace s = s.
Proof.
  induction s as [|a s IH]; simpl; [reflexivity|]. intros Hl.
  destruct s as [|b r].
  - simpl. destruct (Ascii.eqb_spec a " "%char); [subst; contradiction|reflexivity].
  - rewrite IH by exact Hl. reflexivity.
Qed.

Lemma Trim_props (s : string) :
  (forall x, In x (String.list_ascii_of_string (Trim s)) ->
             In x (String.list_ascii_of_string s)) /\
  head (String.list_ascii_of_string (Trim s)) <> Some " "%char /\
  last (String.list_ascii_of_string (Trim s)) <> Some " "%char.
Proof.
  unfold Trim. split; [|split].
  - intros x H. apply TrimLeftSpace_sub, TrimRightSpace_sub, H.
  - destruct (TrimRightSpace_head (TrimLeftSpace s)) as [-> | ->];
      [discriminate|apply TrimLeftSpace_head].
  - apply TrimRightSpace_last.
Qed.

Lemma Split_pieces_no_sep (s : string) (c : Ascii.ascii) :
  Forall (fun p => ~ In c (String.list_ascii_of_string p)) (Split s c).
Proof.
  induction s as [|a s IH]; simpl; [repeat constructor; simpl; tauto|].
  destruct (Ascii.eqb_spec a c); [constructor; [simpl; tauto|exact IH]|].
  destruct (Split s c) as [|p ps]; [repeat constructor; simpl; intuition|].
  inversion IH as [|? ? Hp Hps]; subst. constructor; [|exact Hps].
  simpl. intros [H|H]; [congruence|contradiction].
Qed.

Lemma parseNamespacePathParameter_filter (namespace : string) :
  parseNamespacePathParameter namespace =
  goAppend None (map Trim (List.filter (fun n => bool_decide (0 < String.length (Trim n))%nat)
                             (Split namespace ","%char))).
Proof.
  unfold parseNamespacePathParameter.
  apply fold_goAppend_filter_map. reflexivity.
Qed.

(** The namespaces that [parseNamespacePathParameter] passes on are
    non-empty, hold no comma and neither start nor end with a space; it
    passes a nil slice (all namespaces) exactly when every comma-separated
    piece of the parameter is empty or blank. *)
Theorem parseNamespacePathParameter_trimmed (namespace : string) :
  let result := parseNamespacePathParameter namespace in
  (result = None <-> Forall (fun p => Trim p = EmptyString) (Split namespace ","%char)) /\
  (forall n, In n (default [] result) ->
     n <> EmptyString /\
     ~ In ","%char (String.list_ascii_of_string n) /\
     head (String.list_ascii_of_string n) <> Some " "%char /\
     last (String.list_ascii_of_string n) <> Some " "%char).
Proof.
  intros result. subst result. rewrite parseNamespacePathParameter_filter.
  pose proof (Split_pieces_no_sep namespace ","%char) as Hns.
  split.
  - rewrite List.Forall_forall.
    destruct (List.filter _ _) as [|p ps] eqn:E; simpl.
    + split; [intros _|reflexivity]. intros x Hx.
      assert (Hnot : ~ In x (List.filter (fun n => bool_decide (0 < String.length (Trim n))%nat)
                              (Split namespace ","%char))) by (rewrite E; tauto).
      rewrite filter_In in Hnot.
      destruct (Trim x) as [|a r] eqn:Ex; [reflexivity|].
      exfalso. apply Hnot. split; [exact Hx|]. simpl.
      reflexivity.
    + split; [discriminate|]. intros Hall.
      assert (Hp : In p (List.filter (fun n => bool_decide (0 < String.length (Trim n))%nat)
                           (Split namespace ","%char))) by (rewrite E; left; reflexivity).
      rewrite filter_In in Hp. destruct Hp as [Hin Hlen].
      rewrite (Hall p Hin) in Hlen. discriminate.
  - intros n Hn.
    assert (Hm : In n (map Trim (List.filter (fun n => bool_decide (0 < String.length (Trim n))%nat)
                          (Split namespace ","%char)))).
    { destruct (map Trim _) as [|q qs]; [exact Hn|exact Hn]. }
    apply in_map_iff in Hm as [p [<- Hp]].
    apply filter_In in Hp as [Hin Hlen].
    rewrite List.Forall_forall in Hns.
    destruct (Trim_props p) as (Hsub & Hh & Hl).
    split; [|split; [|split]].
    + intros He. rewrite He in Hlen. discriminate.
    + intros Hc. apply (Hns p Hin), Hsub, Hc.
    + exact Hh.
    + exact Hl.
Qed.

Lemma parseNamespacePathParameter_trimmed_witness :
  parseNamespacePathParameter " , " = None.
Proof.
  apply (proj2 (proj1 (parseNamespacePathParameter_trimmed " , "))).
  repeat constructor.
Defined.

Lemma Split_concat (names : list string) (c : Ascii.ascii) :
  names <> [] ->
  Forall (fun n => ~ In c (String.list_ascii_of_string n)) names ->
  Split (String.concat (String c EmptyString) names) c = names.
Proof.
  intros Hne Hall. induction names as [|x names IH]; [contradiction|].
  inversion Hall as [|? ? Hx Hrest]; subst.
  destruct names as [|y ys].
  - apply Split_no_sep, Hx.
  - change (String.concat (String c EmptyString) (x :: y :: ys)) with
      (String.append x (String c (String.concat (String c EmptyString) (y :: ys)))).
    rewrite (Split_sep x _ c Hx), IH by (discriminate || exact Hrest).
    reflexivity.
Qed.

Lemma concat_Split (s : string) (c : Ascii.ascii) :
  String.concat (String c EmptyString) (Split s c) = s.
Proof.
  induction s as [|a s IH]; [reflexivity|]. simpl.
  pose proof (Split_not_nil s c) as Hn.
  destruct (Ascii.eqb_spec a c) as [->|Hne].
  - destruct (Split s c) as [|p ps]; [contradiction|].
    change (String c (String.concat (String c EmptyString) (p :: ps)) = String c s).
    rewrite IH. reflexivity.
  - destruct (Split s c) as [|p ps]; [contradiction|].
    destruct ps as [|q qs].
    + simpl in IH |- *. rewrite IH. reflexivity.
    + change (String a (String.append p (String.append (String c EmptyString)
                (String.concat (String c EmptyString) (q :: qs)))) = String a s).
      rewrite <- IH. reflexivity.
Qed.

Lemma Trim_id (s : string) :
  head (String.list_ascii_of_string s) <> Some " "%char ->
  last (String.list_ascii_of_string s) <> Some " "%char ->
  Trim s = s.
Proof.
  intros Hh Hl. unfold Trim. rewrite (TrimLeftSpace_id s Hh). apply TrimRightSpace_id, Hl.
Qed.

(** Joining a non-empty list of namespaces with commas and parsing it back
    with [parseNamespacePathParameter] gives the same namespaces, in order,
    provided each is non-empty, holds no comma and neither starts nor ends
    with a space. *)
Theorem parseNamespacePathParameter_roundtrip (names : list string) :
  names <> [] ->
  Forall (fun n => n <> EmptyString /\
                   ~ In ","%char (String.list_ascii_of_string n) /\
                   head (String.list_ascii_of_string n) <> Some " "%char /\
                   last (String.list_ascii_of_string n) <> Some " "%char) names ->
  parseNamespacePathParameter (String.concat "," names) = Some names.
Proof.
  intros Hne Hall. rewrite parseNamespacePathParameter_filter.
  rewrite (Split_concat names ","%char Hne)
    by (eapply Forall_impl; [exact Hall|]; intros n Hn; apply Hn).
  assert (Hf : List.filter (fun n => bool_decide (0 < String.length (Trim n))%nat) names = names).
  { clear Hne. induction Hall as [|x names (Hx0 & _ & Hxh & Hxl) _ IH]; [reflexivity|].
    simpl. rewrite (Trim_id x Hxh Hxl).
    destruct x as [|a r]; [contradiction|]. simpl. rewrite IH. reflexivity. }
  rewrite Hf.
  assert (Hm : map Trim names = names).
  { clear Hne Hf. induction Hall as [|x names (_ & _ & Hxh & Hxl) _ IH]; [reflexivity|].
    simpl. rewrite (Trim_id x Hxh Hxl), IH. reflexivity. }
  rewrite Hm. destruct names; [contradiction|reflexivity].
Qed.

Lemma parseNamespacePathParameter_roundtrip_witness :
  parseNamespacePathParameter "default,kube-system" = Some ["default"; "kube-system"].
Proof.
  apply (parseNamespacePathParameter_roundtrip ["default"; "kube-system"]).
  - discriminate.
  - repeat constructor; simpl; intuition discriminate.
Defined.

(** [parseMetricPathParameter] never passes nil aggregation names: for an
    empty [aggregations] parameter they are an empty slice, otherwise the
    comma-separated pieces. The metric names are nil exactly for an empty
    [metricNames] parameter; otherwise they are its comma-separated pieces,
    which joined back with commas give the parameter. *)
Theorem parseMetricPathParameter_spec (metricNamesParam aggregationsParam : string) :
  let '(metricNames, aggregationNames) :=
    parseMetricPathParameter metricNamesParam aggregationsParam in
  aggregationNames =
    Some (if String.eqb aggregationsParam "" then []
          else Split aggregationsParam ","%char) /\
  (metricNames = None <-> metricNamesParam = EmptyString) /\
  (forall names, metricNames = Some names ->
     names = Split metricNamesParam ","%char /\
     String.concat "," names = metricNamesParam).
Proof.
  unfold parseMetricPathParameter.
  split; [|split].
  - rewrite (fold_goAppend_map (fun e => e) _ []). simpl.
    rewrite map_id. destruct (String.eqb aggregationsParam ""); reflexivity.
  - destruct (String.eqb_spec metricNamesParam ""); split; congruence.
  - intros names Hn. destruct (String.eqb metricNamesParam ""); [discriminate|].
    injection Hn as <-. split; [reflexivity|]. apply concat_Split.
Qed.

Lemma parseMetricPathParameter_spec_witness :
  String.concat "," (default [] (fst (parseMetricPathParameter "cpu,memory" ""))) =
  "cpu,memory".
Proof.
  pose proof (parseMetricPathParameter_spec "cpu,memory" "") as H.
  destruct (parseMetricPathParameter "cpu,memory" "") as [m a] eqn:E.
  destruct H as (_ & _ & Hn).
  destruct m as [names|]; [|vm_compute in E; discriminate].
  exact (proj2 (Hn names eq_refl)).
Defined.
